(** * End-to-end test suite of the hardhat binary: model and properties

    The program verified here is the mocha suite [e2e tests]: a tree of
    [describe] groups whose scenarios spawn the hardhat binary through
    shelljs and judge the outcome with chai assertions.

    The binary under test, the file system and the operating system are
    opaque: they are the fields of a [Platform], and every statement is
    proved for all platforms.  What the suite is written against
    (JavaScript regular expressions, chai, shelljs, mocha) is embedded with
    the semantics its documentation gives, restricted to the calls the
    suite makes.

    The second part is the link component of the documentation site,
    [MDLink], with the function that resolves a relative href against the
    path of the current page. *)

From stdpp Require Import gmap strings list.
From Stdlib Require Import ZArith Ascii.

Local Open Scope Z_scope.

Set Warnings "-register-all".

(** ** JavaScript regular expressions *)

Module RegExp.

(** The fragment of the regular-expression syntax that the literals of the
    suite use: characters, [\d], concatenation, [?] and [+]. *)
Inductive re : Type :=
| Void
| Eps
| Chr (c : ascii)
| Digit
| Cat (r1 r2 : re)
| Alt (r1 r2 : re)
| Star (r : re).

(** [r+] *)
Definition Plus (r : re) : re := Cat r (Star r).

(** [r?] *)
Definition Opt (r : re) : re := Alt r Eps.

(** A run of literal characters. *)
Fixpoint Str (s : string) : re :=
  match s with
  | EmptyString => Eps
  | String c s' => Cat (Chr c) (Str s')
  end.

(** [\d] without the unicode flag: the ten characters 0-9. *)
Definition is_digit (c : ascii) : bool :=
  ((48 <=? nat_of_ascii c) && (nat_of_ascii c <=? 57))%nat.

Fixpoint nullable (r : re) : bool :=
  match r with
  | Void => false
  | Eps => true
  | Chr _ => false
  | Digit => false
  | Cat r1 r2 => nullable r1 && nullable r2
  | Alt r1 r2 => nullable r1 || nullable r2
  | Star _ => true
  end.

Fixpoint deriv (a : ascii) (r : re) : re :=
  match r with
  | Void => Void
  | Eps => Void
  | Chr c => if Ascii.eqb a c then Eps else Void
  | Digit => if is_digit a then Eps else Void
  | Cat r1 r2 =>
      if nullable r1
      then Alt (Cat (deriv a r1) r2) (deriv a r2)
      else Cat (deriv a r1) r2
  | Alt r1 r2 => Alt (deriv a r1) (deriv a r2)
  | Star r1 => Cat (deriv a r1) (Star r1)
  end.

(** The whole of [s] is a word of [r]. *)
Fixpoint matches_all (r : re) (s : string) : bool :=
  match s with
  | EmptyString => nullable r
  | String a s' => matches_all (deriv a r) s'
  end.

(** Some prefix of [s] is a word of [r]. *)
Fixpoint matches_prefix (r : re) (s : string) : bool :=
  nullable r ||
  match s with
  | EmptyString => false
  | String a s' => matches_prefix (deriv a r) s'
  end.

(** Some suffix of [s] is a word of [r]. *)
Fixpoint matches_suffix (r : re) (s : string) : bool :=
  matches_all r s ||
  match s with
  | EmptyString => false
  | String _ s' => matches_suffix r s'
  end.

(** Some substring of [s] is a word of [r]. *)
Fixpoint matches_somewhere (r : re) (s : string) : bool :=
  matches_prefix r s ||
  match s with
  | EmptyString => false
  | String _ s' => matches_somewhere r s'
  end.

(** A regular-expression literal without flags: [^] and [$] anchor at the
    two ends of the input (there is no [m] flag in the suite). *)
Record RegExp : Type := mkRegExp {
  anchored_start : bool;
  pattern : re;
  anchored_end : bool
}.

(** [RegExp.prototype.test]: is there a match anywhere in [s]?  Without the
    [g] flag the search starts at index 0 and keeps no state. *)
Definition test (R : RegExp) (s : string) : bool :=
  match anchored_start R, anchored_end R with
  | true, true => matches_all (pattern R) s
  | true, false => matches_prefix (pattern R) s
  | false, true => matches_suffix (pattern R) s
  | false, false => matches_somewhere (pattern R) s
  end.

(** The words of a regular expression. *)
Inductive lang : re -> string -> Prop :=
| lang_eps : lang Eps ""
| lang_chr c : lang (Chr c) (String c "")
| lang_digit c : is_digit c = true -> lang Digit (String c "")
| lang_cat r1 r2 s1 s2 : lang r1 s1 -> lang r2 s2 -> lang (Cat r1 r2) (s1 +:+ s2)
| lang_alt_l r1 r2 s : lang r1 s -> lang (Alt r1 r2) s
| lang_alt_r r1 r2 s : lang r2 s -> lang (Alt r1 r2) s
| lang_star_nil r : lang (Star r) ""
| lang_star_cons r s1 s2 : lang r s1 -> lang (Star r) s2 -> lang (Star r) (s1 +:+ s2).

(** A string made of decimal digits only. *)
Fixpoint all_digits (s : string) : bool :=
  match s with
  | EmptyString => true
  | String c s' => is_digit c && all_digits s'
  end.

End RegExp.

(** The line-feed character, written [\n] in the source. *)
Definition LF : string := String (ascii_of_nat 10) "".

(** The double-quote character. *)
Definition DQUOTE : string := String (ascii_of_nat 34) "".

(** [/^\d+\.\d+\.\d+\n$/] *)
Definition versionRegExp : RegExp.RegExp :=
  let num := RegExp.Plus RegExp.Digit in
  let dot := RegExp.Chr "." in
  RegExp.mkRegExp true
    (RegExp.Cat num (RegExp.Cat dot (RegExp.Cat num (RegExp.Cat dot
       (RegExp.Cat num (RegExp.Str LF))))))
    true.

(** [/Compiled \d+ Solidity files? successfully/] *)
Definition compiledRegExp : RegExp.RegExp :=
  RegExp.mkRegExp false
    (RegExp.Cat (RegExp.Str "Compiled ")
       (RegExp.Cat (RegExp.Plus RegExp.Digit)
          (RegExp.Cat (RegExp.Str " Solidity file")
             (RegExp.Cat (RegExp.Opt (RegExp.Chr "s"))
                (RegExp.Str " successfully")))))
    false.

(** [/2 passing/] *)
Definition twoPassingRegExp : RegExp.RegExp :=
  RegExp.mkRegExp false (RegExp.Str "2 passing") false.

(** [/0 passing/] *)
Definition zeroPassingRegExp : RegExp.RegExp :=
  RegExp.mkRegExp false (RegExp.Str "0 passing") false.

(** [/You are not inside/] *)
Definition notInsideRegExp : RegExp.RegExp :=
  RegExp.mkRegExp false (RegExp.Str "You are not inside") false.

(** [/HH15?/] *)
Definition hh1RegExp : RegExp.RegExp :=
  RegExp.mkRegExp false
    (RegExp.Cat (RegExp.Str "HH1") (RegExp.Opt (RegExp.Chr "5")))
    false.

(** A decimal numeral: one digit or more. *)
Definition decimal (a : string) : Prop := a <> "" /\ RegExp.all_digits a = true.

(** ** The platform: everything outside the harness process *)

(** What [shell.exec] hands back: exit code, captured output. *)
Record ProcessResult : Type := mkResult {
  code : Z;
  stdout : string;
  stderr : string
}.

(** The operating system, the file system and the programs installed on it
    (the hardhat binary, node, npx).  Nothing is assumed about them. *)
Record Platform : Type := {
  World : Type;
  (** run a command line to completion in a directory and an environment *)
  spawn : World -> string -> gmap string string -> string -> World * ProcessResult;
  (** [fsExtra.existsSync] *)
  existsSync : World -> string -> bool;
  (** [os.type()] *)
  os_type : string;
  (** [path.join] *)
  path_join : list string -> string;
  (** copy a fixture project to its working directory; [None] when the
      project does not exist *)
  acquire : World -> string -> option (World * string);
  (** delete a fixture working directory *)
  release : World -> string -> World
}.

(** Instrumentation: what happened during a run, oldest first. *)
Inductive HookKind : Type := BeforeAll | AfterAll.

Inductive Event : Type :=
| EvHook (suite : list string) (kind : HookKind) (index : nat)
| EvBody (test : list string) (strict : bool)
| EvSpawn (cmd : string) (dir : string) (env : gmap string string) (strict : bool)
| EvAssert (verdict : bool).

(** What a JavaScript function can throw in this suite. *)
Inductive Exn : Type :=
| AssertionError (msg : string)
| ShellError (r : ProcessResult)
| TypeError
| FixtureNotFound (project : string)
| PendingSkip.

Inductive Outcome (A : Type) : Type :=
| Done (a : A)
| Thrown (e : Exn).
Arguments Done {A} a.
Arguments Thrown {A} e.

(** Mocha's [this]: the only property the suite reads is [testDirPath]. *)
Record Ctx : Type := mkCtx { testDirPath : option string }.

Inductive Status : Type := Passed | Failed | Pending | NotRun.

Section Harness.

Context (P : Platform).

(** The state of the harness process and of the world around it. *)
Record Harness : Type := mkHarness {
  world : World P;
  fatal : bool;                  (* shell.config.fatal *)
  cwd : string;                  (* process.cwd() *)
  penv : gmap string string;     (* process.env *)
  trace : list Event
}.

Definition log (e : Event) (s : Harness) : Harness :=
  mkHarness (world s) (fatal s) (cwd s) (penv s) (trace s ++ [e]).

(** Synchronous JavaScript code: it reads and writes the state and either
    returns or throws. *)
Definition M (A : Type) : Type := Harness -> Outcome A * Harness.

#[export] Instance M_ret : MRet M := fun A a s => (Done a, s).

#[export] Instance M_bind : MBind M := fun A B k m s =>
  match m s with
  | (Done a, s') => k a s'
  | (Thrown e, s') => (Thrown e, s')
  end.

Definition throw {A : Type} (e : Exn) : M A := fun s => (Thrown e, s).

(** *** shelljs *)

(** Modelled from the spec: shelljs is a dependency, its source is not part
    of the repository.  [shell.set("-e")] turns on [config.fatal],
    [shell.set("+e")] turns it off (section 4.1, strict and tolerant mode). *)
Definition shell_set (flag : string) : M unit := fun s =>
  if String.eqb flag "-e"
  then (Done tt, mkHarness (world s) true (cwd s) (penv s) (trace s))
  else if String.eqb flag "+e"
  then (Done tt, mkHarness (world s) false (cwd s) (penv s) (trace s))
  else (Done tt, s).

(** Modelled from the spec: [shell.exec(command, {env})] runs the command to
    completion in the current directory, with [process.env] unless an
    environment is given.  A non-zero exit code throws when [config.fatal]
    is on, and is returned with the output otherwise (section 4.1). *)
Definition shell_exec (cmd : string) (env : option (gmap string string))
  : M ProcessResult := fun s =>
  let e := default (penv s) env in
  let (w, r) := spawn P (world s) (cwd s) e cmd in
  let s' := mkHarness w (fatal s) (cwd s) (penv s) (trace s ++ [EvSpawn cmd (cwd s) e (fatal s)]) in
  if fatal s && negb (code r =? 0)
  then (Thrown (ShellError r), s')
  else (Done r, s').

(** *** chai *)

(** Modelled from the spec: chai is a dependency, its source is not part of
    the repository.  Every assertion throws an [AssertionError] when it
    does not hold and returns otherwise (section 4.3). *)
Definition chai_assert (ok : bool) (msg : string) : M unit := fun s =>
  if ok then (Done tt, log (EvAssert true) s)
  else (Thrown (AssertionError msg), log (EvAssert false) s).

Definition assert_equal (actual expected : Z) : M unit :=
  chai_assert (actual =? expected) "expected values to be equal".

Definition assert_isTrue (value : bool) : M unit :=
  chai_assert value "expected value to be true".

Definition assert_match (value : string) (R : RegExp.RegExp) : M unit :=
  chai_assert (RegExp.test R value) "expected value to match".

Definition assert_notMatch (value : string) (R : RegExp.RegExp) (msg : string) : M unit :=
  chai_assert (negb (RegExp.test R value)) msg.

(** *** node *)

Definition fs_existsSync (p : string) : M bool := fun s =>
  (Done (existsSync P (world s) p), s).

(** [path.join(this.testDirPath, name)]; [path.join] throws a [TypeError]
    on an argument that is not a string. *)
Definition join_testDirPath (this : Ctx) (name : string) : M string :=
  match testDirPath this with
  | Some d => mret (path_join P [d; name])
  | None => throw TypeError
  end.

(** *** mocha *)

Definition TestFn : Type := Ctx -> M unit.
Definition BeforeFn : Type := Ctx -> M Ctx.
Definition AfterFn : Type := Ctx -> M unit.

Inductive Node : Type :=
| It (title : string) (fn : TestFn)
| Describe (title : string) (befores : list BeforeFn) (afters : list AfterFn)
    (children : list Node).

(** How a group is entered: normally, below a [this.skip()] of a "before
    all" hook, or below a "before all" hook that failed. *)
Inductive Mode : Type := Run | Skip | Abort.

Definition Report : Type := (list string * Status)%type.

Definition mode_status (m : Mode) : Status :=
  match m with
  | Run => Passed
  | Skip => Pending
  | Abort => NotRun
  end.

(** Modelled from the spec: mocha is a dependency, its source is not part
    of the repository.  One test: the body runs, and the test passes unless
    the body throws (section 4.4). *)
Definition run_test (name : list string) (fn : TestFn) (this : Ctx) (s : Harness)
  : Status * Harness :=
  match fn this (log (EvBody name (fatal s)) s) with
  | (Done _, s') => (Passed, s')
  | (Thrown PendingSkip, s') => (Pending, s')
  | (Thrown _, s') => (Failed, s')
  end.

(** Modelled from the spec: the hooks that [before] registers in a group,
    which mocha runs once, in registration order, when the group is
    entered.  A hook that throws stops the chain: [this.skip()] marks the
    tests and groups below as pending, any other exception aborts them
    (section 4.4, hook failure). *)
Fixpoint run_befores (suite : list string) (i : nat) (hooks : list BeforeFn)
    (this : Ctx) (s : Harness) : Mode * Ctx * Harness :=
  match hooks with
  | [] => (Run, this, s)
  | h :: hs =>
      match h this (log (EvHook suite BeforeAll i) s) with
      | (Done this', s') => run_befores suite (S i) hs this' s'
      | (Thrown PendingSkip, s') => (Skip, this, s')
      | (Thrown _, s') => (Abort, this, s')
      end
  end.

(** Modelled from the spec: the hooks that [after] registers in a group,
    run once when the group is left; a hook that throws stops the chain. *)
Fixpoint run_afters (suite : list string) (i : nat) (hooks : list AfterFn)
    (this : Ctx) (s : Harness) : Harness :=
  match hooks with
  | [] => s
  | h :: hs =>
      match h this (log (EvHook suite AfterAll i) s) with
      | (Done _, s') => run_afters suite (S i) hs this s'
      | (Thrown _, s') => s'
      end
  end.

(** Modelled from the spec: the walk of the tree by mocha.  Groups are
    walked depth first in declaration order, one scenario at a time
    (section 4.4).  A group entered normally runs its "before all" hooks,
    its children and its "after all" hooks; a pending or aborted group runs
    no hook and no body, and its tests are reported pending or not at
    all. *)
Fixpoint run_node (m : Mode) (path : list string) (this : Ctx) (n : Node)
    (s : Harness) {struct n} : list Report * Harness :=
  match n with
  | It title fn =>
      match m with
      | Run => let (st, s') := run_test (path ++ [title]) fn this s in
               ([(path ++ [title], st)], s')
      | _ => ([(path ++ [title], mode_status m)], s)
      end
  | Describe title befores afters children =>
      let suite := path ++ [title] in
      let run_children := fun (m' : Mode) (this' : Ctx) =>
        fix go (ns : list Node) (s0 : Harness) : list Report * Harness :=
          match ns with
          | [] => ([], s0)
          | n' :: ns' =>
              let (r1, s1) := run_node m' suite this' n' s0 in
              let (r2, s2) := go ns' s1 in
              (r1 ++ r2, s2)
          end in
      match m with
      | Run =>
          let '(m', this', s1) := run_befores suite 0 befores this s in
          let (rs, s2) := run_children m' this' children s1 in
          (rs, run_afters suite 0 afters this' s2)
      | _ => run_children m this children s
      end
  end.

(** The children of a group, in declaration order. *)
Definition run_nodes (m : Mode) (suite : list string) (this : Ctx)
  : list Node -> Harness -> list Report * Harness :=
  fix go (ns : list Node) (s : Harness) : list Report * Harness :=
    match ns with
    | [] => ([], s)
    | n :: ns' =>
        let (r1, s1) := run_node m suite this n s in
        let (r2, s2) := go ns' s1 in
        (r1 ++ r2, s2)
    end.

(** *** The suite *)

(** [path.join("node_modules", ".bin", "hardhat")] *)
Definition hardhatBinary : string := path_join P ["node_modules"; ".bin"; "hardhat"].

Definition process_env : M (gmap string string) := fun s => (Done (penv s), s).

(** Modelled from the spec: [useFixture] is imported from [./helpers], which
    is not among the sources.  Before the group runs it copies the named
    fixture project to a working directory of its own, moves there and
    publishes the directory as [this.testDirPath]; after the group it
    deletes the directory (sections 3 and 4.2). *)
Definition useFixture_before (project : string) : BeforeFn := fun this s =>
  match acquire P (world s) project with
  | Some (w, dir) =>
      (Done (mkCtx (Some dir)), mkHarness w (fatal s) dir (penv s) (trace s))
  | None => (Thrown (FixtureNotFound project), s)
  end.

(** Modelled from the spec: the release of the fixture directory when the
    group is left (section 4.2). *)
Definition useFixture_after : AfterFn := fun this s =>
  match testDirPath this with
  | Some dir =>
      (Done tt, mkHarness (release P (world s) dir) (fatal s) (cwd s) (penv s) (trace s))
  | None => (Done tt, s)
  end.

(** [before] of "e2e tests" *)
Definition before_e2e : BeforeFn := fun this =>
  shell_set "-e";; mret this.

(** "should print the hardhat version" (the same body in two groups) *)
Definition it_version : TestFn := fun _ =>
  r ← shell_exec (hardhatBinary +:+ " --version") None;
  assert_equal (code r) 0;;
  assert_match (stdout r) versionRegExp.

(** "should compile" *)
Definition it_compile : TestFn := fun this =>
  clean1 ← shell_exec (hardhatBinary +:+ " clean") None;
  assert_equal (code clean1) 0;;
  compile ← shell_exec (hardhatBinary +:+ " compile") None;
  assert_equal (code compile) 0;;
  artifactsDir ← join_testDirPath this "artifacts";
  found ← fs_existsSync artifactsDir;
  assert_isTrue found;;
  assert_match (stdout compile) compiledRegExp;;
  clean2 ← shell_exec (hardhatBinary +:+ " clean") None;
  assert_equal (code clean2) 0.

(** "should test programmatically" *)
Definition it_test_programmatically : TestFn := fun _ =>
  clean1 ← shell_exec (hardhatBinary +:+ " clean") None;
  assert_equal (code clean1) 0;;
  testRun ← shell_exec (hardhatBinary +:+ " run ./scripts/multi-run-test.js") None;
  assert_equal (code testRun) 0;;
  assert_match (stdout testRun) twoPassingRegExp;;
  assert_notMatch (stdout testRun) zeroPassingRegExp
    "A test run occured with 0 tests - potential caching issue";;
  clean2 ← shell_exec (hardhatBinary +:+ " clean") None;
  assert_equal (code clean2) 0.

(** "the test task should accept test files" *)
Definition it_test_files : TestFn := fun _ =>
  clean1 ← shell_exec (hardhatBinary +:+ " clean") None;
  assert_equal (code clean1) 0;;
  testRun1 ← shell_exec (hardhatBinary +:+ " test test/simple.js") None;
  assert_equal (code testRun1) 0;;
  testRun2 ← shell_exec (hardhatBinary +:+ " test ./test/simple.js") None;
  assert_equal (code testRun2) 0.

(** "should run tests in parallel" *)
Definition it_test_parallel : TestFn := fun _ =>
  clean1 ← shell_exec (hardhatBinary +:+ " clean") None;
  assert_equal (code clean1) 0;;
  testRun ← shell_exec (hardhatBinary +:+ " test --parallel") None;
  assert_equal (code testRun) 0;;
  assert_match (stdout testRun) twoPassingRegExp;;
  clean2 ← shell_exec (hardhatBinary +:+ " clean") None;
  assert_equal (code clean2) 0.

Definition basic_project : Node :=
  Describe "basic-project"
    [useFixture_before "basic-project"] [useFixture_after]
    [ It "should print the hardhat version" it_version;
      It "should compile" it_compile;
      It "should test programmatically" it_test_programmatically;
      It "the test task should accept test files" it_test_files;
      It "should run tests in parallel" it_test_parallel ].

(** [before] of "sample projects" *)
Definition before_sample_projects : BeforeFn := fun this =>
  if String.eqb (os_type P) "Windows_NT" then throw PendingSkip else mret this.

(** The [before] hook of each sample project: the bare binary, run in a copy
    of [process.env] extended with the flag that answers the prompts. *)
Definition generate_sample_project (flag : string) : BeforeFn := fun this =>
  env ← process_env;
  _ ← shell_exec hardhatBinary (Some (<[flag := "true"]> env));
  mret this.

(** The body of the scenario of a suggested command. *)
Definition it_suggested (suggestedCommand : string) : TestFn := fun _ =>
  _ ← shell_exec suggestedCommand None;
  mret tt.

Definition suggested_title (suggestedCommand : string) : string :=
  "should permit successful execution of the suggested command "
    +:+ DQUOTE +:+ suggestedCommand +:+ DQUOTE.

(** The [for] loop that registers one scenario per suggested command. *)
Definition suggested_scenarios (commands : list string) : list Node :=
  map (fun suggestedCommand =>
         It (suggested_title suggestedCommand) (it_suggested suggestedCommand))
      commands.

Definition basic_commands : list string :=
  [ hardhatBinary +:+ " accounts";
    hardhatBinary +:+ " compile";
    hardhatBinary +:+ " test";
    "node scripts/sample-script.js" ].

Definition advanced_commands : list string :=
  [ hardhatBinary +:+ " compile";
    hardhatBinary +:+ " test";
    hardhatBinary +:+ " run scripts/deploy.js";
    "node scripts/deploy.js";
    "REPORT_GAS=true npx hardhat test";
    hardhatBinary +:+ " coverage";
    "npx eslint '**/*.js'";
    "npx eslint '**/*.js' --fix";
    "npx prettier '**/*.{json,sol,md}' --check";
    "npx solhint 'contracts/**/*.sol'";
    "npx solhint 'contracts/**/*.sol' --fix" ].

Definition advanced_ts_commands : list string :=
  [ hardhatBinary +:+ " compile";
    hardhatBinary +:+ " test";
    hardhatBinary +:+ " run scripts/deploy.ts";
    "TS_NODE_FILES=true ts-node scripts/deploy.ts";
    "REPORT_GAS=true npx hardhat test";
    hardhatBinary +:+ " coverage";
    "npx eslint '**/*.{ts,js}'";
    "npx eslint '**/*.{ts,js}' --fix";
    "npx prettier '**/*.{json,sol,md}' --check";
    "npx solhint 'contracts/**/*.sol'";
    "npx solhint 'contracts/**/*.sol' --fix" ].

(** A sample-project group: fixture, generation hook, suggested commands. *)
Definition sample_project (title fixture flag : string) (commands : list string) : Node :=
  Describe title
    [useFixture_before fixture; generate_sample_project flag] [useFixture_after]
    (suggested_scenarios commands).

Definition basic_sample_project : Node :=
  sample_project "basic sample project" "basic-sample-project"
    "HARDHAT_CREATE_BASIC_SAMPLE_PROJECT_WITH_DEFAULTS" basic_commands.

Definition advanced_sample_project : Node :=
  sample_project "advanced sample project" "advanced-sample-project"
    "HARDHAT_CREATE_ADVANCED_SAMPLE_PROJECT_WITH_DEFAULTS" advanced_commands.

Definition advanced_ts_sample_project : Node :=
  sample_project "advanced TypeScript sample project" "advanced-ts-sample-project"
    "HARDHAT_CREATE_ADVANCED_TYPESCRIPT_SAMPLE_PROJECT_WITH_DEFAULTS"
    advanced_ts_commands.

Definition sample_projects : Node :=
  Describe "sample projects" [before_sample_projects] []
    [basic_sample_project; advanced_sample_project; advanced_ts_sample_project].

(** "should print an error message if you try to compile" *)
Definition it_compile_outside : TestFn := fun _ =>
  shell_set "+e";;
  r ← shell_exec (hardhatBinary +:+ " compile") None;
  shell_set "-e";;
  assert_equal (code r) 1;;
  assert_match (stderr r) notInsideRegExp;;
  assert_match (stderr r) hh1RegExp.

Definition no_project : Node :=
  Describe "no project"
    [useFixture_before "empty"] [useFixture_after]
    [ It "should print the hardhat version" it_version;
      It "should print an error message if you try to compile" it_compile_outside ].

Definition e2e_tests : Node :=
  Describe "e2e tests" [before_e2e] []
    [basic_project; sample_projects; no_project].

(** The run of the whole suite by mocha. *)
Definition run_mocha (s : Harness) : list Report * Harness :=
  run_node Run [] (mkCtx None) e2e_tests s.

(** The process that a scenario starts from state [s] in world [w]: the
    world it leaves and what it reports. *)
Definition run_in (s : Harness) (w : World P) (cmd : string) : World P * ProcessResult :=
  spawn P w (cwd s) (penv s) cmd.

End Harness.

Arguments It {P} title fn.
Arguments Describe {P} title befores afters children.
Arguments world {P} h.
Arguments fatal {P} h.
Arguments cwd {P} h.
Arguments penv {P} h.
Arguments trace {P} h.
Arguments mkHarness {P} world fatal cwd penv trace.

(** ** Concrete platforms, to run the suite on *)

(** What a scripted program does when it is run: its result and the paths
    it creates and removes. *)
Record Reply : Type := mkReply {
  result : ProcessResult;
  creates : list string;
  removes : list string
}.

Definition quiet (c : Z) (out err : string) : Reply :=
  mkReply (mkResult c out err) [] [].

Definition member (p : string) (l : list string) : bool :=
  existsb (String.eqb p) l.

(** POSIX [path.join] on segments that need no normalisation. *)
Definition posix_join (parts : list string) : string := String.concat "/" parts.

(** A platform whose programs answer by a script from directory and command
    line; its world is the list of paths that exist. *)
Definition scripted (os : string) (script : string -> string -> Reply) : Platform :=
  {| World := list string;
     spawn := fun w dir _ cmd =>
       let rp := script dir cmd in
       (creates rp ++ filter (fun p => negb (member p (removes rp))) w, result rp);
     existsSync := fun w p => member p w;
     os_type := os;
     path_join := posix_join;
     acquire := fun w project => Some (w, "/tmp/hardhat-e2e-" +:+ project);
     release := fun w dir => filter (fun p => negb (String.eqb p dir)) w |}.

Definition posix_binary : string := "node_modules/.bin/hardhat".

(** A hardhat that behaves as documented.  [parallel_out] is what
    [test --parallel] prints. *)
Definition hardhat_script (parallel_out : string) (dir cmd : string) : Reply :=
  if String.eqb cmd (posix_binary +:+ " --version") then
    quiet 0 ("2.10.1" +:+ LF) ""
  else if String.eqb cmd (posix_binary +:+ " clean") then
    mkReply (mkResult 0 "" "") [] [posix_join [dir; "artifacts"]]
  else if String.eqb cmd (posix_binary +:+ " compile") then
    if String.eqb dir "/tmp/hardhat-e2e-empty" then
      quiet 1 "" ("Error HH1: You are not inside a Hardhat project." +:+ LF)
    else
      mkReply (mkResult 0 ("Compiled 1 Solidity file successfully" +:+ LF) "")
        [posix_join [dir; "artifacts"]] []
  else if String.eqb cmd (posix_binary +:+ " run ./scripts/multi-run-test.js") then
    quiet 0 ("  2 passing (1s)" +:+ LF +:+ "  2 passing (1s)" +:+ LF) ""
  else if String.eqb cmd (posix_binary +:+ " test --parallel") then
    quiet 0 parallel_out ""
  else
    quiet 0 "" "".

Definition healthy : Platform :=
  scripted "Linux" (hardhat_script ("  2 passing (1s)" +:+ LF)).

Definition healthy_windows : Platform :=
  scripted "Windows_NT" (hardhat_script ("  2 passing (1s)" +:+ LF)).


(** A platform on which every command fails. *)
Definition failing : Platform :=
  scripted "Linux" (fun _ _ => quiet 1 "" "").

(** The harness process as node starts it: shelljs has [config.fatal] off. *)
Definition fresh (P : Platform) (w : World P) (env : gmap string string) : Harness P :=
  mkHarness w false "/" env [].


Definition is_body (e : Event) : bool :=
  match e with EvBody _ _ => true | _ => false end.

Definition is_spawn (e : Event) : bool :=
  match e with EvSpawn _ _ _ _ => true | _ => false end.

(** The scenarios and groups registered directly in a group. *)
Definition children_of {P : Platform} (n : Node P) : list (Node P) :=
  match n with
  | It _ _ => []
  | Describe _ _ _ children => children
  end.

(** The state in which the scenarios of a fixture group start once the root
    hook and [useFixture] have run. *)
Definition in_fixture (P : Platform) (w : World P) (project : string) : Harness P :=
  mkHarness w true ("/tmp/hardhat-e2e-" +:+ project) ∅ [].

(** The processes of a trace, in the order they were spawned. *)
Fixpoint spawned (t : list Event) : list Event :=
  match t with
  | [] => []
  | EvSpawn c d e f :: t' => EvSpawn c d e f :: spawned t'
  | _ :: t' => spawned t'
  end.




Definition failing_state : Harness failing := in_fixture failing [] "basic-sample-project".

Definition windows_state : Harness healthy_windows := fresh healthy_windows [] ∅.

(** ** Predicates of the statements *)

Section Invariants.

Context (P : Platform) (I : Harness P -> Prop).

(** A piece of code keeps [I], whether it returns or throws. *)
Definition preserves {A : Type} (m : M P A) : Prop :=
  forall s, I s -> I (snd (m s)).

(** Every hook and every body of a tree keeps [I]. *)
Fixpoint node_preserves (n : Node P) : Prop :=
  match n with
  | It _ fn => forall this, preserves (fn this)
  | Describe _ befores afters children =>
      Forall (fun h => forall this, preserves (h this)) befores /\
      Forall (fun h => forall this, preserves (h this)) afters /\
      (fix all (ns : list (Node P)) : Prop :=
         match ns with
         | [] => True
         | n' :: ns' => node_preserves n' /\ all ns'
         end) children
  end.

End Invariants.

(** A scenario body starts in strict mode. *)
Definition body_strict (e : Event) : Prop :=
  match e with
  | EvBody _ strict => strict = true
  | _ => True
  end.

(** A process runs in the environment [E]. *)
Definition ambient (E : gmap string string) (e : Event) : Prop :=
  match e with
  | EvSpawn _ _ env _ => env = E
  | _ => True
  end.

(** The trace grew from [t0] by events that satisfy [ok]. *)
Definition grew {P : Platform} (ok : Event -> Prop) (t0 : list Event) (s : Harness P) : Prop :=
  exists d, trace s = t0 ++ d /\ Forall ok d.

(** Strict mode is on and every scenario body so far started in it. *)
Definition strict_inv {P : Platform} (t0 : list Event) (s : Harness P) : Prop :=
  fatal s = true /\ grew body_strict t0 s.

(** A property [K] of the mode and the environment holds, and the trace grew
    from [t0] by events that satisfy [ok]. *)
Definition frame_inv {P : Platform} (K : Harness P -> Prop) (ok : Event -> Prop)
    (t0 : list Event) (s : Harness P) : Prop :=
  K s /\ grew ok t0 s.

(** The environment of the harness is [E]. *)
Definition env_is {P : Platform} (E : gmap string string) : Harness P -> Prop :=
  fun s => penv s = E.

(** The harness is in strict mode. *)
Definition strict_on {P : Platform} : Harness P -> Prop := fun s => fatal s = true.

(** A process runs in the environment [E], or it is the bare binary and runs
    in [E] with one variable set to "true". *)
Definition ambient_or_generation (P : Platform) (E : gmap string string) (e : Event) : Prop :=
  match e with
  | EvSpawn cmd _ env _ =>
      env = E \/ (cmd = hardhatBinary P /\ exists flag, env = <[flag := "true"]> E)
  | _ => True
  end.

(** A process runs in strict mode. *)
Definition spawn_strict (e : Event) : Prop :=
  match e with
  | EvSpawn _ _ _ strict => strict = true
  | _ => True
  end.

(** The processes of a trace that ran in tolerant mode. *)
Fixpoint tolerant (t : list Event) : list Event :=
  match t with
  | [] => []
  | EvSpawn c d e false :: t' => EvSpawn c d e false :: tolerant t'
  | _ :: t' => tolerant t'
  end.


(** A piece of code never calls [this.skip()]. *)
Definition never_skips {P : Platform} {A : Type} (m : M P A) : Prop :=
  forall s, fst (m s) <> Thrown PendingSkip.

(** No hook and no body of a tree calls [this.skip()]. *)
Fixpoint node_never_skips {P : Platform} (n : Node P) : Prop :=
  match n with
  | It _ fn => forall this, never_skips (fn this)
  | Describe _ befores afters children =>
      Forall (fun h => forall this, never_skips (h this)) befores /\
      (fix all (ns : list (Node P)) : Prop :=
         match ns with
         | [] => True
         | n' :: ns' => node_never_skips n' /\ all ns'
         end) children
  end.



(** The state in which the group of the basic sample project is entered on
    a platform where every command fails. *)
Definition failing_group_state : Harness failing :=
  mkHarness ([] : World failing) true "/" ∅ [].

(** ** The link component of the documentation site *)

Module Docs.

(** *** The string and array methods the component calls *)

(** What follows [p] in [s] when [s] starts with [p]. *)
Fixpoint after_prefix (p s : string) : option string :=
  match p with
  | EmptyString => Some s
  | String a p' =>
      match s with
      | EmptyString => None
      | String b s' => if Ascii.eqb a b then after_prefix p' s' else None
      end
  end.

(** [s.startsWith(p)] *)
Definition startsWith (s p : string) : bool :=
  match after_prefix p s with
  | Some _ => true
  | None => false
  end.

(** [s.split(sep)] for a separator of one character: the pieces between the
    separators, empty pieces included; never the empty list. *)
Fixpoint split (sep : ascii) (s : string) : list string :=
  match s with
  | EmptyString => [EmptyString]
  | String c s' =>
      if Ascii.eqb c sep then EmptyString :: split sep s'
      else
        match split sep s' with
        | [] => [String c EmptyString]
        | piece :: pieces => String c piece :: pieces
        end
  end.

(** [segments.join(sep)] *)
Definition join (sep : string) (segments : list string) : string :=
  String.concat sep segments.

(** [s.replace(pat, rep)] with a string pattern: the first occurrence of
    [pat], scanning from the left, is replaced; [s] is returned when there
    is none. *)
Fixpoint replace (pat rep s : string) : string :=
  match after_prefix pat s with
  | Some rest => rep +:+ rest
  | None =>
      match s with
      | EmptyString => EmptyString
      | String c s' => String c (replace pat rep s')
      end
  end.

(** [s.replace(/r$/, "")]: the match is searched from the left, so the
    longest suffix of [s] that is a word of [r] is removed. *)
Fixpoint remove_at_end (r : RegExp.re) (s : string) : string :=
  if RegExp.matches_all r s then EmptyString
  else
    match s with
    | EmptyString => EmptyString
    | String c s' => String c (remove_at_end r s')
    end.

(** [segments.slice(0, end)] for an [end] that is not negative. *)
Definition slice0 {A : Type} (last : Z) (segments : list A) : list A :=
  take (Z.to_nat last) segments.

(** *** getAbsoluteHrefFromRelativePath *)

Definition SLASH : ascii := "/"%char.

Definition pathSegments (currentHref : string) : list string :=
  filter (fun segment => segment <> "") (split SLASH currentHref).

Definition hrefSegments (href : string) : list string :=
  filter (fun segment => segment <> ".") (split SLASH href).

Definition upperLevelsCount (href : string) : Z :=
  Z.of_nat (length (filter (fun segment => segment = "..") (hrefSegments href))).

Definition baseSegmentsCount (href currentHref : string) : Z :=
  Z.max (Z.of_nat (length (pathSegments currentHref)) - 1 - upperLevelsCount href) 0.

Definition baseSegments (href currentHref : string) : list string :=
  slice0 (baseSegmentsCount href currentHref + 1) (pathSegments currentHref).

Definition newSegments (href currentHref : string) : list string :=
  "" :: baseSegments href currentHref ++ hrefSegments href.

Definition getAbsoluteHrefFromRelativePath (href currentHref : string) : string :=
  replace "/index" "" (join "/" (newSegments href currentHref)).

(** *** The elements that the component renders *)

(** The children of the link are a string or an element; they are passed
    through as they are. *)
Inductive JSX (C : Type) : Type :=
| Children (children : C)
| ExternalLinkIcon
| Anchor (href target rel : option string) (content : list (JSX C))
| Link (href : string) (content : list (JSX C))
| StyledMdLinkContainer (content : list (JSX C)).
Arguments Children {C} children.
Arguments ExternalLinkIcon {C}.
Arguments Anchor {C} href target rel content.
Arguments Link {C} href content.
Arguments StyledMdLinkContainer {C} content.

Definition renderLinkByType {C : Type} (children : C) (href : string)
    (isExternalLink isAnchor isAbsoluteLink : bool) (currentHref : string) : JSX C :=
  if isExternalLink then
    Anchor (Some href) (Some "_blank") (Some "noreferrer")
      [Children children; ExternalLinkIcon]
  else if isAnchor then
    Anchor (Some href) None None [Children children]
  else if isAbsoluteLink then
    Link href [Anchor None None None [Children children]]
  else
    Link (getAbsoluteHrefFromRelativePath href currentHref)
      [Anchor None None None [Children children]].

(** [/\.mdx?$/], without its anchor *)
Definition mdExtension : RegExp.re :=
  RegExp.Cat (RegExp.Str ".md") (RegExp.Opt (RegExp.Chr "x")).

(** [href.replace(/\.mdx?$/, "")] *)
Definition stripExtension (href : string) : string :=
  remove_at_end mdExtension href.

(** The component; [asPath] is [useRouter().asPath]. *)
Definition MDLink {C : Type} (children : C) (href : string) (asPath : string) : JSX C :=
  let isExternalLink := startsWith href "http" in
  let isAbsoluteLink := startsWith href "/" in
  let isAnchor := startsWith href "#" in
  StyledMdLinkContainer
    [renderLinkByType children (stripExtension href)
       isExternalLink isAnchor isAbsoluteLink asPath].

(** A segment that [replace("/index", "")] would cut at. *)
Definition index_like (segment : string) : Prop := startsWith segment "index" = true.

(** A string without a slash. *)
Fixpoint slash_free (s : string) : bool :=
  match s with
  | EmptyString => true
  | String c s' => negb (Ascii.eqb c SLASH) && slash_free s'
  end.

(** The segments, each after a slash. *)
Fixpoint slashed (segments : list string) : string :=
  match segments with
  | [] => ""
  | segment :: segments' => "/" +:+ segment +:+ slashed segments'
  end.

End Docs.

(* ------------------------------------------------------------------ *)
(*  Properties                                                         *)
(* ------------------------------------------------------------------ *)

Example version_ok : RegExp.test versionRegExp ("2.10.1" +:+ LF) = true.
Proof. reflexivity. Qed.

Example version_no_newline : RegExp.test versionRegExp "2.10.1" = false.
Proof. reflexivity. Qed.

Example version_two_lines :
  RegExp.test versionRegExp ("2.10.1" +:+ LF +:+ "2.10.1" +:+ LF) = false.
Proof. reflexivity. Qed.

Example compiled_one : RegExp.test compiledRegExp "Compiled 1 Solidity file successfully" = true.
Proof. reflexivity. Qed.

Example compiled_many :
  RegExp.test compiledRegExp ("xx Compiled 12 Solidity files successfully" +:+ LF) = true.
Proof. reflexivity. Qed.

Example compiled_none : RegExp.test compiledRegExp "Compiled  Solidity files successfully" = false.
Proof. reflexivity. Qed.

Example hh1_matches_hh12 : RegExp.test hh1RegExp "Error HH12: x" = true.
Proof. reflexivity. Qed.

(** ** The matcher computes the language of the expression *)

Module RegExpFacts.
Import RegExp.

Lemma append_nil_l (s : string) : "" +:+ s = s.
Proof. reflexivity. Qed.

Lemma append_cons (a : ascii) (s1 s2 : string) :
  String a s1 +:+ s2 = String a (s1 +:+ s2).
Proof. reflexivity. Qed.

Ltac str_simpl := simpl; rewrite ?append_cons, ?append_nil_l.
Ltac str_simpl_in H := simpl in H; rewrite ?append_cons, ?append_nil_l in H.

Lemma append_nil_inv (s1 s2 : string) : s1 +:+ s2 = "" -> s1 = "" /\ s2 = "".
Proof. destruct s1; str_simpl; [auto | discriminate]. Qed.

Lemma append_cons_inv (s1 s2 : string) (a : ascii) (s : string) :
  s1 +:+ s2 = String a s ->
  (s1 = "" /\ s2 = String a s) \/ (exists s1', s1 = String a s1' /\ s = s1' +:+ s2).
Proof.
  destruct s1 as [|b s1]; str_simpl; intros H.
  - left; auto.
  - right. injection H as -> <-. eauto.
Qed.

Lemma append_assoc (s1 s2 s3 : string) : (s1 +:+ s2) +:+ s3 = s1 +:+ (s2 +:+ s3).
Proof. induction s1; str_simpl; congruence. Qed.

Lemma append_nil_r (s : string) : s +:+ "" = s.
Proof. induction s; str_simpl; congruence. Qed.

Lemma lang_void_inv (s : string) : lang Void s -> False.
Proof. intros H; inversion H. Qed.

Lemma lang_eps_inv (s : string) : lang Eps s -> s = "".
Proof. intros H; inversion H; reflexivity. Qed.

Lemma lang_chr_inv (c : ascii) (s : string) : lang (Chr c) s -> s = String c "".
Proof. intros H; inversion H; reflexivity. Qed.

Lemma lang_digit_inv (s : string) :
  lang Digit s -> exists c, s = String c "" /\ is_digit c = true.
Proof. intros H; inversion H; subst; eauto. Qed.

Lemma lang_cat_inv (r1 r2 : re) (s : string) :
  lang (Cat r1 r2) s -> exists s1 s2, s = s1 +:+ s2 /\ lang r1 s1 /\ lang r2 s2.
Proof. intros H; inversion H; subst; eauto. Qed.

Lemma lang_alt_inv (r1 r2 : re) (s : string) :
  lang (Alt r1 r2) s -> lang r1 s \/ lang r2 s.
Proof. intros H; inversion H; subst; auto. Qed.

Lemma lang_cat_cons (r1 r2 : re) (a : ascii) (s1 s2 : string) :
  lang r1 (String a s1) -> lang r2 s2 -> lang (Cat r1 r2) (String a (s1 +:+ s2)).
Proof. intros H1 H2. rewrite <- append_cons. constructor; assumption. Qed.

Lemma lang_cat_nil_l (r1 r2 : re) (s : string) :
  lang r1 "" -> lang r2 s -> lang (Cat r1 r2) s.
Proof. intros H1 H2. rewrite <- (append_nil_l s). constructor; assumption. Qed.

Lemma nullable_lang (r : re) : nullable r = true <-> lang r "".
Proof.
  induction r; simpl; split; intros H; try discriminate; try reflexivity.
  - destruct (lang_void_inv _ H).
  - constructor.
  - apply lang_chr_inv in H. discriminate.
  - apply lang_digit_inv in H as (c & H & _). discriminate.
  - apply andb_true_iff in H as [H1 H2]. apply lang_cat_nil_l; tauto.
  - apply lang_cat_inv in H as (s1 & s2 & Heq & H1 & H2).
    symmetry in Heq. apply append_nil_inv in Heq as [-> ->].
    apply andb_true_iff; tauto.
  - apply orb_true_iff in H as [H|H]; [apply lang_alt_l | apply lang_alt_r]; tauto.
  - apply orb_true_iff. apply lang_alt_inv in H. tauto.
  - constructor.
Qed.

Lemma lang_star_cons_inv (r : re) (a : ascii) (s : string) :
  lang (Star r) (String a s) ->
  exists s1 s2, s = s1 +:+ s2 /\ lang r (String a s1) /\ lang (Star r) s2.
Proof.
  intros H. remember (Star r) as r' eqn:Er. remember (String a s) as w eqn:Ew.
  revert Er Ew. induction H; intros Er Ew; try discriminate.
  injection Er as ->.
  apply append_cons_inv in Ew as [[-> ->] | (s1' & -> & ->)].
  - apply IHlang2; reflexivity.
  - eauto.
Qed.

Lemma deriv_lang (r : re) : forall (a : ascii) (s : string),
  lang (deriv a r) s <-> lang r (String a s).
Proof.
  induction r; intros a s; simpl.
  - split; intros H; destruct (lang_void_inv _ H).
  - split; intros H; [destruct (lang_void_inv _ H) | apply lang_eps_inv in H; discriminate].
  - destruct (Ascii.eqb_spec a c) as [->|Hne]; split; intros H.
    + apply lang_eps_inv in H as ->. constructor.
    + apply lang_chr_inv in H. injection H as ->. constructor.
    + destruct (lang_void_inv _ H).
    + apply lang_chr_inv in H. congruence.
  - destruct (is_digit a) eqn:Hd; split; intros H.
    + apply lang_eps_inv in H as ->. constructor. exact Hd.
    + apply lang_digit_inv in H as (c & H & _). injection H as _ ->. constructor.
    + destruct (lang_void_inv _ H).
    + apply lang_digit_inv in H as (c & H & Hc). congruence.
  - destruct (nullable r1) eqn:Hn; split; intros H.
    + apply lang_alt_inv in H as [H|H].
      * apply lang_cat_inv in H as (s1 & s2 & -> & Ha & Hb).
        apply lang_cat_cons; [apply IHr1; exact Ha | exact Hb].
      * apply lang_cat_nil_l; [apply nullable_lang; exact Hn | apply IHr2; exact H].
    + apply lang_cat_inv in H as (s1 & s2 & Heq & Ha & Hb). symmetry in Heq.
      apply append_cons_inv in Heq as [[-> ->] | (s1' & -> & ->)].
      * apply lang_alt_r. apply IHr2. exact Hb.
      * apply lang_alt_l. constructor; [apply IHr1; exact Ha | exact Hb].
    + apply lang_cat_inv in H as (s1 & s2 & -> & Ha & Hb).
      apply lang_cat_cons; [apply IHr1; exact Ha | exact Hb].
    + apply lang_cat_inv in H as (s1 & s2 & Heq & Ha & Hb). symmetry in Heq.
      apply append_cons_inv in Heq as [[-> ->] | (s1' & -> & ->)].
      * apply nullable_lang in Ha. congruence.
      * constructor; [apply IHr1; exact Ha | exact Hb].
  - split; intros H; apply lang_alt_inv in H as [H|H];
      (apply lang_alt_l; apply IHr1; exact H) || (apply lang_alt_r; apply IHr2; exact H).
  - split; intros H.
    + apply lang_cat_inv in H as (s1 & s2 & -> & Ha & Hb).
      rewrite <- append_cons.
      apply lang_star_cons; [apply IHr; exact Ha | exact Hb].
    + apply lang_star_cons_inv in H as (s1 & s2 & -> & Ha & Hb).
      constructor; [apply IHr; exact Ha | exact Hb].
Qed.

(** An anchored match is membership of the whole input. *)
Lemma matches_all_lang (s : string) : forall r : re,
  matches_all r s = true <-> lang r s.
Proof.
  induction s as [|a s IH]; intros r; simpl.
  - apply nullable_lang.
  - rewrite IH. apply deriv_lang.
Qed.

Lemma matches_prefix_lang (s : string) : forall r : re,
  matches_prefix r s = true <-> exists s1 s2, s = s1 +:+ s2 /\ lang r s1.
Proof.
  induction s as [|a s IH]; intros r; simpl; rewrite orb_true_iff.
  - split.
    + intros [H|H]; [|discriminate]. exists "", "". split; [reflexivity | apply nullable_lang; exact H].
    + intros (s1 & s2 & Heq & H). symmetry in Heq. apply append_nil_inv in Heq as [-> ->].
      left. apply nullable_lang. exact H.
  - rewrite IH. split.
    + intros [H | (s1 & s2 & -> & H)].
      * exists "", (String a s). split; [reflexivity | apply nullable_lang; exact H].
      * exists (String a s1), s2. split; [reflexivity | apply deriv_lang; exact H].
    + intros (s1 & s2 & Heq & H). symmetry in Heq.
      apply append_cons_inv in Heq as [[-> ->] | (s1' & -> & ->)].
      * left. apply nullable_lang. exact H.
      * right. exists s1', s2. split; [reflexivity | apply deriv_lang; exact H].
Qed.

Lemma matches_somewhere_nil (r : re) :
  matches_somewhere r "" = matches_prefix r "" || false.
Proof. reflexivity. Qed.

Lemma matches_somewhere_cons (r : re) (a : ascii) (s : string) :
  matches_somewhere r (String a s) =
  matches_prefix r (String a s) || matches_somewhere r s.
Proof. reflexivity. Qed.

(** A match without anchors is membership of some substring. *)
Lemma matches_somewhere_lang (r : re) (s : string) :
  matches_somewhere r s = true <->
  exists s0 s1 s2, s = s0 +:+ s1 +:+ s2 /\ lang r s1.
Proof.
  induction s as [|a s IH];
    [rewrite matches_somewhere_nil | rewrite matches_somewhere_cons];
    rewrite orb_true_iff, matches_prefix_lang.
  - split.
    + intros [(s1 & s2 & Heq & H) | H]; [|discriminate]. exists "", s1, s2. auto.
    + intros (s0 & s1 & s2 & Heq & H). left.
      symmetry in Heq. apply append_nil_inv in Heq as [-> Heq]. eauto.
  - rewrite IH. split.
    + intros [(s1 & s2 & Heq & H) | (s0 & s1 & s2 & -> & H)].
      * exists "", s1, s2. auto.
      * exists (String a s0), s1, s2. auto.
    + intros (s0 & s1 & s2 & Heq & H). symmetry in Heq.
      apply append_cons_inv in Heq as [[-> Heq] | (s0' & -> & ->)].
      * left. exists s1, s2. auto.
      * right. exists s0', s1, s2. auto.
Qed.

Lemma lang_Str (t s : string) : lang (Str t) s <-> s = t.
Proof.
  revert s. induction t as [|c t IH]; intros s; simpl; split; intros H.
  - inversion H; reflexivity.
  - subst. constructor.
  - apply lang_cat_inv in H as (s1 & s2 & -> & Ha & Hb).
    apply lang_chr_inv in Ha as ->. str_simpl. f_equal. apply IH. exact Hb.
  - subst. apply (lang_cat_cons _ _ c ""); [constructor | apply IH; reflexivity].
Qed.

Lemma lang_star_digits (s : string) :
  lang (Star Digit) s <-> all_digits s = true.
Proof.
  split.
  - intros H. remember (Star Digit) as r eqn:Er. revert Er.
    induction H; intros Er; try discriminate; [reflexivity|].
    injection Er as ->. apply lang_digit_inv in H as (c & -> & Hc). str_simpl.
    apply andb_true_iff. auto.
  - induction s as [|c s IH]; simpl; intros H.
    + constructor.
    + apply andb_true_iff in H as [Hc Hs].
      rewrite <- (append_nil_l s), <- append_cons.
      apply lang_star_cons; [constructor; exact Hc | auto].
Qed.

(** [\d+]: one digit or more. *)
Lemma lang_digits (s : string) :
  lang (Plus Digit) s <-> s <> "" /\ all_digits s = true.
Proof.
  unfold Plus. split.
  - intros H. apply lang_cat_inv in H as (s1 & s2 & -> & Ha & Hb).
    apply lang_digit_inv in Ha as (c & -> & Hc). str_simpl. split; [discriminate|].
    apply andb_true_iff. split; [assumption | apply lang_star_digits; assumption].
  - intros [Hne H]. destruct s as [|c s]; [congruence|].
    simpl in H. apply andb_true_iff in H as [Hc Hs].
    apply (lang_cat_cons _ _ c ""); [constructor; exact Hc | apply lang_star_digits; exact Hs].
Qed.

(** A literal pattern without anchors is a substring test. *)
Lemma test_literal (t s : string) :
  test (mkRegExp false (Str t) false) s = true <->
  exists s0 s2, s = s0 +:+ t +:+ s2.
Proof.
  unfold test; simpl. rewrite matches_somewhere_lang. split.
  - intros (s0 & s1 & s2 & -> & H). apply lang_Str in H as ->. eauto.
  - intros (s0 & s2 & ->). exists s0, t, s2. split; [reflexivity | apply lang_Str; reflexivity].
Qed.

End RegExpFacts.

(** ** What the patterns of the suite accept *)

Section Patterns.

Import RegExp RegExpFacts.

(** [versionRegExp] accepts exactly one line [a.b.c] of three decimal
    numerals, ended by a line feed. *)
Lemma versionRegExp_spec (s : string) :
  test versionRegExp s = true <->
  exists a b c, decimal a /\ decimal b /\ decimal c /\
    s = a +:+ "." +:+ b +:+ "." +:+ c +:+ LF.
Proof.
  unfold test, versionRegExp; simpl anchored_start; simpl anchored_end; simpl pattern.
  rewrite matches_all_lang. unfold decimal. split.
  - intros H.
    apply lang_cat_inv in H as (a & s1 & -> & Ha & H).
    apply lang_cat_inv in H as (d1 & s2 & -> & Hd1 & H).
    apply lang_cat_inv in H as (b & s3 & -> & Hb & H).
    apply lang_cat_inv in H as (d2 & s4 & -> & Hd2 & H).
    apply lang_cat_inv in H as (c & s5 & -> & Hc & H).
    apply lang_chr_inv in Hd1 as ->. apply lang_chr_inv in Hd2 as ->.
    apply (lang_Str LF) in H as ->.
    apply lang_digits in Ha, Hb, Hc.
    exists a, b, c. repeat split; tauto.
  - intros (a & b & c & Ha & Hb & Hc & ->).
    apply lang_digits in Ha, Hb, Hc.
    repeat (apply lang_cat; [eassumption || apply (lang_chr ".") |]).
    apply (lang_Str LF). reflexivity.
Qed.

(** X18: [compiledRegExp] accepts the texts that contain the success
    message, with "file" or "files", for some decimal count: the count and
    the plural are not tied to one another, and a count of 0 is accepted. *)
Lemma compiledRegExp_spec (s : string) :
  test compiledRegExp s = true <->
  exists pre n plural post, decimal n /\ (plural = "" \/ plural = "s") /\
    s = pre +:+ ("Compiled " +:+ n +:+ " Solidity file" +:+ plural +:+ " successfully")
          +:+ post.
Proof.
  unfold test, compiledRegExp; simpl anchored_start; simpl anchored_end; simpl pattern.
  rewrite matches_somewhere_lang. unfold decimal. split.
  - intros (pre & mid & post & -> & H).
    apply lang_cat_inv in H as (s1 & r1 & -> & H1 & H).
    apply lang_cat_inv in H as (n & r2 & -> & Hn & H).
    apply lang_cat_inv in H as (s2 & r3 & -> & H2 & H).
    apply lang_cat_inv in H as (pl & s3 & -> & Hpl & H3).
    apply (lang_Str "Compiled ") in H1 as ->.
    apply (lang_Str " Solidity file") in H2 as ->.
    apply (lang_Str " successfully") in H3 as ->.
    apply lang_digits in Hn.
    exists pre, n, pl, post. split; [exact Hn|]. split; [|reflexivity].
    apply lang_alt_inv in Hpl as [Hpl|Hpl].
    + right. apply lang_chr_inv in Hpl. exact Hpl.
    + left. apply lang_eps_inv in Hpl. exact Hpl.
  - intros (pre & n & pl & post & Hn & Hpl & ->).
    eexists pre, _, post. split; [reflexivity|].
    apply lang_digits in Hn.
    apply lang_cat; [apply (lang_Str "Compiled "); reflexivity|].
    apply lang_cat; [exact Hn|].
    apply lang_cat; [apply (lang_Str " Solidity file"); reflexivity|].
    apply lang_cat; [|apply (lang_Str " successfully"); reflexivity].
    destruct Hpl as [-> | ->]; [apply lang_alt_r; constructor | apply lang_alt_l; constructor].
Qed.


End Patterns.

(** ** Running the suite on a documented hardhat *)

Example healthy_reports :
  map snd (fst (run_mocha healthy (fresh healthy [] ∅))) = replicate 33 Passed.
Proof. vm_compute. reflexivity. Qed.

(** ** What each scenario of "basic-project" and "no project" checks *)

(** Unfold a scenario body down to the processes it spawns, then name the
    outcome of each process. *)
Ltac unfold_body :=
  unfold run_test, run_in, mbind, M_bind, mret, M_ret, throw,
    shell_exec, shell_set, fs_existsSync, join_testDirPath,
    assert_equal, assert_isTrue, assert_match, assert_notMatch, chai_assert, log;
  simpl.

Ltac name_spawn :=
  match goal with
  | |- context [spawn ?P ?w ?d ?e ?c] =>
      match w with
      | context [spawn] => fail 1
      | _ =>
          let w' := fresh "w" in let r := fresh "r" in
          destruct (spawn P w d e c) as [w' r]; simpl
      end
  end.

Ltac split_atom :=
  match goal with
  | |- context [Z.eqb (code ?r) ?c] =>
      is_var r; destruct (Z.eqb (code r) c) eqn:?; simpl
  | |- context [RegExp.test ?R (?out ?r)] =>
      is_var r; destruct (RegExp.test R (out r)) eqn:?; simpl
  | |- context [existsSync ?P ?w ?p] =>
      is_var w; destruct (existsSync P w p) eqn:?; simpl
  | |- context [fatal ?s] => is_var s; destruct (fatal s) eqn:?; simpl
  end.

Ltac split_conj :=
  repeat match goal with
         | |- _ /\ _ => split
         | |- True => exact Logic.I
         | |- Forall _ [] => apply Forall_nil
         | |- Forall _ (_ :: _) => apply Forall_cons
         end.

Ltac settle :=
  rewrite <- ?Z.eqb_eq;
  repeat first [split_atom | name_spawn];
  intuition (try congruence; try discriminate).


Section Scenarios.

Context (P : Platform).

Implicit Types (s : Harness P) (this : Ctx) (name : list string).

Lemma bind_run {A B : Type} (m : M P A) (k : A -> M P B) s :
  (m ≫= k) s =
  match m s with
  | (Done a, s') => k a s'
  | (Thrown e, s') => (Thrown e, s')
  end.
Proof. reflexivity. Qed.

Lemma eqb_code (r : ProcessResult) (c : Z) : (code r =? c) = true <-> code r = c.
Proof. apply Z.eqb_eq. Qed.

(** The version scenario passes exactly when the binary exits with 0 and
    prints a version line. *)
Lemma it_version_passes name this s :
  let v := run_in P s (world s) (hardhatBinary P +:+ " --version") in
  fst (run_test P name (it_version P) this s) = Passed <->
  code (snd v) = 0 /\ RegExp.test versionRegExp (stdout (snd v)) = true.
Proof. unfold it_version. unfold_body. settle. Qed.

(** The test-file scenario passes exactly when clean and both ways of
    naming the file exit with 0. *)
Lemma it_test_files_passes name this s :
  let bin := hardhatBinary P in
  let clean := run_in P s (world s) (bin +:+ " clean") in
  let plain := run_in P s (fst clean) (bin +:+ " test test/simple.js") in
  let dotted := run_in P s (fst plain) (bin +:+ " test ./test/simple.js") in
  fst (run_test P name (it_test_files P) this s) = Passed <->
  code (snd clean) = 0 /\ code (snd plain) = 0 /\ code (snd dotted) = 0.
Proof. unfold it_test_files. unfold_body. settle. Qed.


(** Without a fixture directory [path.join] throws and the scenario fails. *)
Lemma it_compile_needs_fixture name s :
  fst (run_test P name (it_compile P) (mkCtx None) s) <> Passed.
Proof. unfold it_compile. unfold_body. settle. Qed.

Lemma it_test_programmatically_passes name this s :
  let bin := hardhatBinary P in
  let clean1 := run_in P s (world s) (bin +:+ " clean") in
  let serial := run_in P s (fst clean1) (bin +:+ " run ./scripts/multi-run-test.js") in
  let clean2 := run_in P s (fst serial) (bin +:+ " clean") in
  fst (run_test P name (it_test_programmatically P) this s) = Passed <->
  code (snd clean1) = 0 /\
  code (snd serial) = 0 /\
  RegExp.test twoPassingRegExp (stdout (snd serial)) = true /\
  RegExp.test zeroPassingRegExp (stdout (snd serial)) = false /\
  code (snd clean2) = 0.
Proof. unfold it_test_programmatically. unfold_body. settle. Qed.

Lemma it_test_parallel_passes name this s :
  let bin := hardhatBinary P in
  let clean1 := run_in P s (world s) (bin +:+ " clean") in
  let parallel := run_in P s (fst clean1) (bin +:+ " test --parallel") in
  let clean2 := run_in P s (fst parallel) (bin +:+ " clean") in
  fst (run_test P name (it_test_parallel P) this s) = Passed <->
  code (snd clean1) = 0 /\
  code (snd parallel) = 0 /\
  RegExp.test twoPassingRegExp (stdout (snd parallel)) = true /\
  code (snd clean2) = 0.
Proof. unfold it_test_parallel. unfold_body. settle. Qed.



Lemma it_suggested_tolerant name this s (cmd : string) :
  fatal s = false ->
  fst (run_test P name (it_suggested P cmd) this s) = Passed.
Proof. intros Hs. unfold it_suggested. unfold_body. rewrite Hs. settle. Qed.

(** It evaluates no assertion: all it adds to the trace is its own start
    and the process it spawns. *)
Lemma it_suggested_trace name this s (cmd : string) :
  trace (snd (run_test P name (it_suggested P cmd) this s)) =
  trace s ++ [EvBody name (fatal s); EvSpawn cmd (cwd s) (penv s) (fatal s)].
Proof.
  unfold it_suggested. unfold_body. settle; rewrite <- app_assoc; reflexivity.
Qed.

End Scenarios.

(** ** The walk of the tree *)

Section Walk.

Context (P : Platform).

Implicit Types (s : Harness P) (this : Ctx) (path : list string) (n : Node P).

Lemma Node_nested_ind (Q : Node P -> Prop) :
  (forall t fn, Q (It t fn)) ->
  (forall t bs afs cs, Forall Q cs -> Q (Describe t bs afs cs)) ->
  forall n, Q n.
Proof.
  intros HIt HDesc. fix IH 1. intros [t fn | t bs afs cs].
  - apply HIt.
  - apply HDesc. induction cs as [|c cs IHcs]; constructor; [apply IH | exact IHcs].
Qed.

Lemma run_node_describe_run path this t bs afs cs s :
  run_node P Run path this (Describe t bs afs cs) s =
  let '(m', this', s1) := run_befores P (path ++ [t]) 0 bs this s in
  let (rs, s2) := run_nodes P m' (path ++ [t]) this' cs s1 in
  (rs, run_afters P (path ++ [t]) 0 afs this' s2).
Proof. reflexivity. Qed.

Lemma run_node_describe_off (m : Mode) path this t bs afs cs s :
  m <> Run ->
  run_node P m path this (Describe t bs afs cs) s =
  run_nodes P m (path ++ [t]) this cs s.
Proof. destruct m; [congruence | reflexivity | reflexivity]. Qed.

Lemma run_node_it_off (m : Mode) path this t fn s :
  m <> Run ->
  run_node P m path this (It t fn) s = ([(path ++ [t], mode_status m)], s).
Proof. destruct m; [congruence | reflexivity | reflexivity]. Qed.

Lemma run_nodes_cons (m : Mode) path this n ns s :
  run_nodes P m path this (n :: ns) s =
  (fst (run_node P m path this n s) ++
   fst (run_nodes P m path this ns (snd (run_node P m path this n s))),
   snd (run_nodes P m path this ns (snd (run_node P m path this n s)))).
Proof.
  simpl. destruct (run_node P m path this n s) as [r1 s1]. simpl.
  destruct (run_nodes P m path this ns s1); reflexivity.
Qed.

(** Below a skip or a failed hook nothing runs: the state is untouched and
    every test gets the status of the mode. *)
Lemma run_node_off (m : Mode) n :
  m <> Run ->
  forall path this s,
    snd (run_node P m path this n s) = s /\
    Forall (fun r => snd r = mode_status m) (fst (run_node P m path this n s)).
Proof.
  intros Hm. induction n as [t fn | t bs afs cs IH] using Node_nested_ind;
    intros path this s.
  - rewrite run_node_it_off by exact Hm. simpl. split; [reflexivity | repeat constructor].
  - rewrite run_node_describe_off by exact Hm.
    generalize (path ++ [t]) as suite. intros suite. revert s.
    induction IH as [|c cs Hc _ IHcs]; intros s.
    + simpl. split; [reflexivity | constructor].
    + rewrite run_nodes_cons. simpl.
      destruct (Hc suite this s) as [-> Hr1].
      destruct (IHcs s) as [-> Hr2].
      split; [reflexivity | apply Forall_app; split; assumption].
Qed.

Lemma run_nodes_off (m : Mode) (ns : list (Node P)) :
  m <> Run ->
  forall path this s,
    snd (run_nodes P m path this ns s) = s /\
    Forall (fun r => snd r = mode_status m) (fst (run_nodes P m path this ns s)).
Proof.
  intros Hm path this. induction ns as [|n ns IH]; intros s.
  - simpl. split; [reflexivity | constructor].
  - rewrite run_nodes_cons. simpl.
    destruct (run_node_off m n Hm path this s) as [-> Hr1].
    destruct (IH s) as [-> Hr2].
    split; [reflexivity | apply Forall_app; split; assumption].
Qed.

End Walk.

(** ** Invariants of a run *)

Section Preservation.

Context (P : Platform) (I : Harness P -> Prop).

Implicit Types (s : Harness P) (this : Ctx) (path : list string) (n : Node P).

Hypothesis I_hook : forall s suite k i, I s -> I (log P (EvHook suite k i) s).
Hypothesis I_body : forall s name, I s -> I (log P (EvBody name (fatal s)) s).

Lemma preserves_ret {A : Type} (a : A) : preserves P I (mret a).
Proof. intros s Hs. exact Hs. Qed.

Lemma preserves_throw {A : Type} (e : Exn) : preserves P I (@throw P A e).
Proof. intros s Hs. exact Hs. Qed.

Lemma preserves_bind {A B : Type} (m : M P A) (k : A -> M P B) :
  preserves P I m -> (forall a, preserves P I (k a)) -> preserves P I (m ≫= k).
Proof.
  intros Hm Hk s Hs. rewrite bind_run. specialize (Hm s Hs).
  destruct (m s) as [[a|e] s']; simpl in *; [apply Hk; exact Hm | exact Hm].
Qed.

Lemma run_test_preserves name (fn : TestFn P) this s :
  (forall this', preserves P I (fn this')) -> I s ->
  I (snd (run_test P name fn this s)).
Proof.
  intros Hfn Hs. unfold run_test.
  specialize (Hfn this _ (I_body s name Hs)).
  destruct (fn this _) as [[[]|[]] s']; exact Hfn.
Qed.

Lemma run_befores_preserves path (bs : list (BeforeFn P)) :
  Forall (fun h => forall this, preserves P I (h this)) bs ->
  forall i this s, I s -> I (snd (run_befores P path i bs this s)).
Proof.
  induction 1 as [|h hs Hh _ IH]; intros i this s Hs; simpl; [exact Hs|].
  specialize (Hh this _ (I_hook s path BeforeAll i Hs)).
  destruct (h this _) as [[this'|[]] s']; simpl in *; auto.
Qed.

Lemma run_afters_preserves path (afs : list (AfterFn P)) :
  Forall (fun h => forall this, preserves P I (h this)) afs ->
  forall i this s, I s -> I (run_afters P path i afs this s).
Proof.
  induction 1 as [|h hs Hh _ IH]; intros i this s Hs; simpl; [exact Hs|].
  specialize (Hh this _ (I_hook s path AfterAll i Hs)).
  destruct (h this _) as [[[]|e] s']; simpl in *; auto.
Qed.

(** An invariant that every hook and every body keeps is kept by the walk
    of the tree, in every mode. *)
Lemma run_nodes_preserves (ns : list (Node P)) :
  Forall (fun n => forall (m : Mode) path this s,
            I s -> I (snd (run_node P m path this n s))) ns ->
  forall (m : Mode) path this s, I s -> I (snd (run_nodes P m path this ns s)).
Proof.
  induction 1 as [|n ns Hn _ IH]; intros m path this s Hs; [exact Hs|].
  rewrite run_nodes_cons. simpl. apply IH. apply Hn. exact Hs.
Qed.

Lemma run_node_preserves n :
  node_preserves P I n ->
  forall (m : Mode) path this s, I s -> I (snd (run_node P m path this n s)).
Proof.
  induction n as [t fn | t bs afs cs IH] using Node_nested_ind;
    intros Hn m path this s Hs.
  - destruct m; simpl in *; try exact Hs.
    pose proof (run_test_preserves (path ++ [t]) fn this s Hn Hs) as H.
    destruct (run_test P (path ++ [t]) fn this s); exact H.
  - destruct Hn as (Hbs & Hafs & Hcs).
    assert (Hkids : forall m' this' s', I s' ->
              I (snd (run_nodes P m' (path ++ [t]) this' cs s'))).
    { intros m' this'. clear Hbs Hafs Hs s.
      induction IH as [|c cs Hc _ IHcs]; intros s' Hs'; [exact Hs'|].
      destruct Hcs as [Hc1 Hcs]. rewrite run_nodes_cons. simpl.
      apply IHcs; [exact Hcs | apply Hc; assumption]. }
    destruct m.
    + rewrite run_node_describe_run.
      pose proof (run_befores_preserves (path ++ [t]) bs Hbs 0%nat this s Hs) as Hb.
      destruct (run_befores P (path ++ [t]) 0 bs this s) as [[m' this'] s1].
      simpl in Hb. specialize (Hkids m' this' s1 Hb).
      destruct (run_nodes P m' (path ++ [t]) this' cs s1) as [rs s2]. simpl in *.
      apply run_afters_preserves; assumption.
    + rewrite run_node_describe_off by discriminate. apply Hkids; exact Hs.
    + rewrite run_node_describe_off by discriminate. apply Hkids; exact Hs.
Qed.

End Preservation.

(** ** Strict mode throughout the suite *)

Section Strict.

Context (P : Platform) (t0 : list Event).

Implicit Types (s : Harness P) (this : Ctx).

Lemma grew_refl (ok : Event -> Prop) s : grew ok (trace s) s.
Proof. exists []. split; [symmetry; apply app_nil_r | constructor]. Qed.

Lemma grew_snoc (ok : Event -> Prop) (e : Event) (w : World P) (f : bool)
    (d : string) (E : gmap string string) s :
  grew ok t0 s -> ok e -> grew ok t0 (mkHarness w f d E (trace s ++ [e])).
Proof.
  intros (dl & Ht & Hd) He. exists (dl ++ [e]). simpl. split.
  - rewrite Ht, app_assoc. reflexivity.
  - apply Forall_app. split; [exact Hd | repeat constructor; exact He].
Qed.

Lemma grew_ext (ok : Event -> Prop) (d : list Event) s (s' : Harness P) :
  grew ok t0 s -> trace s' = trace s ++ d -> Forall ok d -> grew ok t0 s'.
Proof.
  intros (dl & Ht & Hd) Hs' Hok. exists (dl ++ d). split.
  - rewrite Hs', Ht, app_assoc. reflexivity.
  - apply Forall_app. split; assumption.
Qed.

Lemma grew_same (ok : Event -> Prop) (w : World P) (f : bool)
    (d : string) (E : gmap string string) s :
  grew ok t0 s -> grew ok t0 (mkHarness w f d E (trace s)).
Proof. intros H. exact H. Qed.

Lemma strict_hook s suite k i :
  strict_inv t0 s -> strict_inv t0 (log P (EvHook suite k i) s).
Proof. intros [Hf Hg]. split; [exact Hf | apply grew_snoc; [exact Hg | exact Logic.I]]. Qed.

Lemma strict_body s name :
  strict_inv t0 s -> strict_inv t0 (log P (EvBody name (fatal s)) s).
Proof. intros [Hf Hg]. split; [exact Hf | apply grew_snoc; [exact Hg | exact Hf]]. Qed.

Lemma strict_shell_exec cmd env : preserves P (strict_inv t0) (shell_exec P cmd env).
Proof.
  intros s [Hf Hg]. unfold shell_exec.
  destruct (spawn P _ _ _ _) as [w r].
  destruct (fatal s && negb (code r =? 0)); simpl;
    (split; [exact Hf | apply grew_snoc; [exact Hg | exact Logic.I]]).
Qed.

Lemma strict_chai_assert ok msg : preserves P (strict_inv t0) (chai_assert P ok msg).
Proof.
  intros s Hs. unfold chai_assert. destruct ok; simpl;
    destruct Hs as [Hf Hg]; (split; [exact Hf | apply grew_snoc; [exact Hg | exact Logic.I]]).
Qed.

Lemma strict_shell_set_e : preserves P (strict_inv t0) (shell_set P "-e").
Proof. intros s [Hf Hg]. split; [reflexivity | exact Hg]. Qed.

Lemma strict_existsSync p : preserves P (strict_inv t0) (fs_existsSync P p).
Proof. intros s Hs. exact Hs. Qed.

Lemma strict_join this name : preserves P (strict_inv t0) (join_testDirPath P this name).
Proof. intros s Hs. unfold join_testDirPath. destruct (testDirPath this); exact Hs. Qed.

Lemma strict_process_env : preserves P (strict_inv t0) (process_env P).
Proof. intros s Hs. exact Hs. Qed.

Lemma strict_useFixture_before project this :
  preserves P (strict_inv t0) (useFixture_before P project this).
Proof.
  intros s Hs. unfold useFixture_before.
  destruct (acquire P (world s) project) as [[w dir]|]; exact Hs.
Qed.

Lemma strict_useFixture_after this : preserves P (strict_inv t0) (useFixture_after P this).
Proof. intros s Hs. unfold useFixture_after. destruct (testDirPath this); exact Hs. Qed.

Lemma strict_before_sample_projects this :
  preserves P (strict_inv t0) (before_sample_projects P this).
Proof. intros s Hs. unfold before_sample_projects. destruct (String.eqb _ _); exact Hs. Qed.

(** The one scenario that leaves strict mode is back in it when it ends,
    whether its assertions hold or not. *)
Lemma strict_it_compile_outside this :
  preserves P (strict_inv t0) (it_compile_outside P this).
Proof.
  intros s [Hf Hg]. unfold it_compile_outside. unfold_body.
  repeat first [split_atom | name_spawn];
    (split; [reflexivity|]);
    (eapply grew_ext;
       [exact Hg | simpl; rewrite <- ?app_assoc; reflexivity | repeat constructor]).
Qed.

Ltac strict_step :=
  first
    [ apply strict_shell_exec | apply strict_chai_assert | apply strict_shell_set_e
    | apply strict_existsSync | apply strict_join | apply strict_process_env
    | apply preserves_ret | apply preserves_throw
    | apply preserves_bind; [|intros ?] ].

Ltac strict_body :=
  unfold assert_equal, assert_isTrue, assert_match, assert_notMatch;
  repeat strict_step.

Lemma strict_basic_project : node_preserves P (strict_inv t0) (basic_project P).
Proof.
  simpl. split_conj; intros this.
  - apply strict_useFixture_before.
  - apply strict_useFixture_after.
  - unfold it_version. strict_body.
  - unfold it_compile. strict_body.
  - unfold it_test_programmatically. strict_body.
  - unfold it_test_files. strict_body.
  - unfold it_test_parallel. strict_body.
Qed.

Lemma strict_no_project : node_preserves P (strict_inv t0) (no_project P).
Proof.
  simpl. split_conj; intros this.
  - apply strict_useFixture_before.
  - apply strict_useFixture_after.
  - unfold it_version. strict_body.
  - apply strict_it_compile_outside.
Qed.

Lemma strict_generate flag this :
  preserves P (strict_inv t0) (generate_sample_project P flag this).
Proof. unfold generate_sample_project. strict_body. Qed.

Lemma strict_sample_project title fixture flag commands :
  node_preserves P (strict_inv t0) (sample_project P title fixture flag commands).
Proof.
  simpl. split_conj; try intros this.
  - apply strict_useFixture_before.
  - apply strict_generate.
  - apply strict_useFixture_after.
  - induction commands as [|c cs IH]; simpl; [exact Logic.I|].
    split; [|exact IH]. intros this. unfold it_suggested. strict_body.
Qed.

Lemma strict_sample_projects : node_preserves P (strict_inv t0) (sample_projects P).
Proof.
  unfold sample_projects, basic_sample_project, advanced_sample_project,
    advanced_ts_sample_project.
  cbn [node_preserves]. split_conj.
  - intros this. apply strict_before_sample_projects.
  - apply strict_sample_project.
  - apply strict_sample_project.
  - apply strict_sample_project.
Qed.

End Strict.

(** ** Properties of the suite *)

Section Suite.

Context (P : Platform).

Implicit Types (s : Harness P) (this : Ctx) (name path : list string).

Lemma before_e2e_run path this s :
  run_befores P path 0 [before_e2e P] this s =
  (Run, this,
   mkHarness (world s) true (cwd s) (penv s) (trace s ++ [EvHook path BeforeAll 0])).
Proof. reflexivity. Qed.

(** The tolerant bracket of "should print an error message if you try to
    compile": one process, spawned with [config.fatal] off, and strict mode
    back on at the end whatever the assertions say. *)
Lemma it_compile_outside_bracket name this s :
  let s' := snd (run_test P name (it_compile_outside P) this s) in
  fatal s' = true /\
  exists d,
    trace s' =
      trace s ++ EvBody name (fatal s)
        :: EvSpawn (hardhatBinary P +:+ " compile") (cwd s) (penv s) false :: d /\
    Forall (fun e => is_spawn e = false) d.
Proof.
  unfold it_compile_outside. unfold_body.
  repeat first [split_atom | name_spawn];
    (split; [reflexivity|]); eexists;
    (split; [rewrite <- ?app_assoc; simpl; reflexivity | repeat constructor]).
Qed.

(** C9: strict fail-fast mode is in effect at the start of every scenario
    body of the suite and when the suite ends; the scenario that turns it
    off runs exactly one process in tolerant mode and turns it on again. *)
Theorem strict_mode_at_every_body s :
  let s' := snd (run_mocha P s) in
  fatal s' = true /\
  grew body_strict (trace s) s' /\
  forall name this s0,
    let s1 := snd (run_test P name (it_compile_outside P) this s0) in
    fatal s1 = true /\
    exists d,
      trace s1 =
        trace s0 ++ EvBody name (fatal s0)
          :: EvSpawn (hardhatBinary P +:+ " compile") (cwd s0) (penv s0) false :: d /\
      Forall (fun e => is_spawn e = false) d.
Proof.
  assert (H : strict_inv (trace s) (snd (run_mocha P s))).
  { unfold run_mocha, e2e_tests.
    rewrite run_node_describe_run, before_e2e_run. cbv beta iota zeta.
    match goal with
    | |- context [run_nodes P Run ?suite ?this ?ns ?s1] =>
        pose proof (run_nodes_preserves P (strict_inv (trace s)) ns) as Hk;
        specialize (fun H => Hk H Run suite this s1);
        destruct (run_nodes P Run suite this ns s1) as [rs s2]
    end.
    simpl in *. apply Hk.
    - split_conj; intros m path this s0;
        apply run_node_preserves;
        auto using strict_hook, strict_body, strict_basic_project,
          strict_sample_projects, strict_no_project.
    - split; [reflexivity|]. eapply grew_ext; [apply grew_refl | reflexivity | repeat constructor]. }
  destruct H as [Hf Hg]. split; [exact Hf|]. split; [exact Hg|].
  intros name this s0. apply it_compile_outside_bracket.
Qed.

(** C8: the version scenario, registered in "basic-project" and in
    "no project" alike, passes exactly when [--version] exits with 0 and
    prints one line holding a three-part decimal version. *)
Theorem version_line_in_and_out_of_project name this s :
  let v := run_in P s (world s) (hardhatBinary P +:+ " --version") in
  In (It "should print the hardhat version" (it_version P)) (children_of (basic_project P)) /\
  In (It "should print the hardhat version" (it_version P)) (children_of (no_project P)) /\
  (fst (run_test P name (it_version P) this s) = Passed <->
   code (snd v) = 0 /\
   RegExp.test versionRegExp (stdout (snd v)) = true /\
   exists a b c, decimal a /\ decimal b /\ decimal c /\
     stdout (snd v) = a +:+ "." +:+ b +:+ "." +:+ c +:+ LF).
Proof.
  intros v. split; [simpl; auto|]. split; [simpl; auto|].
  rewrite it_version_passes. fold v. rewrite <- versionRegExp_spec. tauto.
Qed.

(** C10: the test-file scenario passes exactly when, after a clean that
    exits with 0, the test task exits with 0 for the file named
    [test/simple.js] and for the file named [./test/simple.js]. *)
Theorem test_file_with_and_without_dot_slash name this s :
  let bin := hardhatBinary P in
  let clean := run_in P s (world s) (bin +:+ " clean") in
  let plain := run_in P s (fst clean) (bin +:+ " test test/simple.js") in
  let dotted := run_in P s (fst plain) (bin +:+ " test ./test/simple.js") in
  In (It "the test task should accept test files" (it_test_files P))
     (children_of (basic_project P)) /\
  (fst (run_test P name (it_test_files P) this s) = Passed <->
   code (snd clean) = 0 /\ code (snd plain) = 0 /\ code (snd dotted) = 0).
Proof. split; [simpl; auto 10 | apply it_test_files_passes]. Qed.




(** C3: a process that exits with a non-zero code makes [shell.exec] throw
    in strict mode: a scenario whose body makes the call fails whatever
    follows the call, and a "before all" hook that makes it aborts its
    group.  In tolerant mode the result is returned with its code, and a
    scenario that does nothing else passes. *)
Theorem non_zero_exit_strict_and_tolerant (cmd : string)
    (env : option (gmap string string)) name this s :
  let r := snd (spawn P (world s) (cwd s) (default (penv s) env) cmd) in
  code r <> 0 ->
  (fatal s = true ->
   fst (shell_exec P cmd env s) = Thrown (ShellError r) /\
   (forall k : ProcessResult -> M P unit,
      fst (run_test P name (fun _ => shell_exec P cmd env ≫= k) this s) = Failed) /\
   (forall (k : ProcessResult -> M P Ctx) (i : nat) (hooks : list (BeforeFn P)),
      fst (fst (run_befores P name i ((fun _ => shell_exec P cmd env ≫= k) :: hooks)
                  this s)) = Abort)) /\
  (fatal s = false ->
   fst (shell_exec P cmd env s) = Done r /\
   fst (run_test P name (fun _ => shell_exec P cmd env ≫= (fun _ => mret tt)) this s) = Passed).
Proof.
  intros r. subst r. unfold_body.
  destruct (spawn P _ _ _ _) as [w r]. simpl. intros Hr%Z.eqb_neq.
  split; intros Hf; rewrite Hf, Hr; simpl; auto.
Qed.


Lemma before_sample_projects_skips path this s :
  os_type P = "Windows_NT" ->
  run_befores P path 0 [before_sample_projects P] this s =
  (Skip, this, log P (EvHook path BeforeAll 0) s).
Proof.
  intros Hos. simpl. unfold before_sample_projects. rewrite Hos. reflexivity.
Qed.

(** C5: on Windows the group "sample projects" is skipped as a whole.  Its
    26 scenarios are reported pending, and the run leaves the state as it
    found it but for the trace entry of the hook that takes the decision:
    no body, no fixture or generation hook and no process has run. *)
Theorem skipped_on_windows path this s :
  os_type P = "Windows_NT" ->
  let out := run_node P Run path this (sample_projects P) s in
  snd out = log P (EvHook (path ++ ["sample projects"]) BeforeAll 0) s /\
  length (fst out) = 26%nat /\
  Forall (fun r => snd r = Pending) (fst out).
Proof.
  intros Hos out. subst out. unfold sample_projects.
  rewrite run_node_describe_run, (before_sample_projects_skips _ _ _ Hos).
  cbv beta iota zeta.
  match goal with
  | |- context [run_nodes P Skip ?suite ?this ?ns ?s1] =>
      pose proof (run_nodes_off P Skip ns ltac:(discriminate) suite this s1) as [Hs Hr];
      assert (Hl : length (fst (run_nodes P Skip suite this ns s1)) = 26%nat)
        by reflexivity;
      destruct (run_nodes P Skip suite this ns s1) as [rs s2]
  end.
  simpl in *. subst s2. auto.
Qed.

Lemma spawned_app (t1 t2 : list Event) : spawned (t1 ++ t2) = spawned t1 ++ spawned t2.
Proof.
  induction t1 as [|e t1 IH]; [reflexivity|].
  destruct e; simpl; rewrite IH; reflexivity.
Qed.

(** One suggested scenario: it touches neither the mode, the directory nor
    the environment of the harness. *)
Lemma it_suggested_frame name this s (cmd : string) :
  let s' := snd (run_test P name (it_suggested P cmd) this s) in
  fatal s' = fatal s /\ cwd s' = cwd s /\ penv s' = penv s.
Proof. unfold it_suggested. unfold_body. settle. Qed.

(** The scenarios of a list of suggested commands spawn exactly those
    commands, in order, each in the environment of the harness. *)
Lemma suggested_run (commands : list string) : forall path this s,
  let s' := snd (run_nodes P Run path this (suggested_scenarios P commands) s) in
  fatal s' = fatal s /\ cwd s' = cwd s /\ penv s' = penv s /\
  exists d, trace s' = trace s ++ d /\
    spawned d = map (fun c => EvSpawn c (cwd s) (penv s) (fatal s)) commands.
Proof.
  induction commands as [|c cs IH]; intros path this s.
  - simpl. repeat split; try reflexivity. exists []. split; [symmetry; apply app_nil_r | reflexivity].
  - change (suggested_scenarios P (c :: cs))
      with (It (suggested_title c) (it_suggested P c) :: suggested_scenarios P cs).
    rewrite run_nodes_cons. cbn [snd].
    assert (Hn : snd (run_node P Run path this (It (suggested_title c) (it_suggested P c)) s)
                 = snd (run_test P (path ++ [suggested_title c]) (it_suggested P c) this s)).
    { simpl. destruct (run_test P _ _ _ _); reflexivity. }
    rewrite Hn.
    pose proof (it_suggested_frame (path ++ [suggested_title c]) this s c) as (Hf & Hc & He).
    pose proof (it_suggested_trace P (path ++ [suggested_title c]) this s c) as Ht.
    destruct (IH path this
                (snd (run_test P (path ++ [suggested_title c]) (it_suggested P c) this s)))
      as (Hf' & Hc' & He' & d & Hd & Hsp).
    rewrite Hf, Hc, He in *.
    repeat split; try assumption.
    eexists. split.
    + rewrite Hd, Ht, <- app_assoc. reflexivity.
    + rewrite spawned_app, Hsp. reflexivity.
Qed.

Lemma useFixture_after_run path this s :
  let s' := run_afters P path 0 [useFixture_after P] this s in
  fatal s' = fatal s /\ cwd s' = cwd s /\ penv s' = penv s /\
  trace s' = trace s ++ [EvHook path AfterAll 0].
Proof.
  simpl. unfold useFixture_after, log. simpl.
  destruct (testDirPath this); simpl; auto.
Qed.

(** The two "before all" hooks of a sample-project group. *)
Lemma sample_project_befores path (fixture flag : string) this s :
  run_befores P path 0
    [useFixture_before P fixture; generate_sample_project P flag] this s =
  match acquire P (world s) fixture with
  | None => (Abort, this, log P (EvHook path BeforeAll 0) s)
  | Some (w, dir) =>
      let (w1, r) := spawn P w dir (<[flag := "true"]> (penv s)) (hardhatBinary P) in
      (if fatal s && negb (code r =? 0) then Abort else Run,
       mkCtx (Some dir),
       mkHarness w1 (fatal s) dir (penv s)
         (trace s ++
            [EvHook path BeforeAll 0; EvHook path BeforeAll 1;
             EvSpawn (hardhatBinary P) dir (<[flag := "true"]> (penv s)) (fatal s)]))
  end.
Proof.
  cbn [run_befores]. unfold useFixture_before at 1. cbn [world log].
  destruct (acquire P (world s) fixture) as [[w dir]|]; [|reflexivity].
  unfold generate_sample_project, process_env. unfold_body.
  destruct (spawn P w dir _ (hardhatBinary P)) as [w1 r]. simpl.
  destruct (fatal s && negb (code r =? 0)); rewrite <- !app_assoc; reflexivity.
Qed.

(** C7: in a sample-project group the flag that selects the defaults is in
    the environment of the generation process only.  The group leaves
    [process.env] as it found it; the first process it spawns is the bare
    binary with the flag added to that environment, and every suggested
    command after it runs in that environment unchanged.  (Nothing is
    spawned when the fixture is missing, and only the generation when it
    fails in strict mode.) *)
Theorem generation_flag_is_scoped (title fixture flag : string)
    (commands : list string) path this s :
  let s' := snd (run_node P Run path this
                   (sample_project P title fixture flag commands) s) in
  let generation dir :=
    EvSpawn (hardhatBinary P) dir (<[flag := "true"]> (penv s)) (fatal s) in
  penv s' = penv s /\
  exists d, trace s' = trace s ++ d /\
    (spawned d = [] \/
     exists dir,
       spawned d = [generation dir] \/
       spawned d =
         generation dir :: map (fun c => EvSpawn c dir (penv s) (fatal s)) commands).
Proof.
  intros s' generation. subst s'. unfold sample_project.
  rewrite run_node_describe_run.
  set (suite := path ++ [title]).
  rewrite sample_project_befores.
  destruct (acquire P (world s) fixture) as [[w dir]|].
  - (* the fixture is there: generation runs *)
    destruct (spawn P w dir _ (hardhatBinary P)) as [w1 r].
    destruct (fatal s && negb (code r =? 0)) eqn:Hfail; cbv beta iota zeta.
    + (* generation failed in strict mode: the scenarios are not run *)
      match goal with
      | |- context [run_nodes P Abort ?su ?th ?ns ?s1] =>
          pose proof (run_nodes_off P Abort ns ltac:(discriminate) su th s1) as [Hs _];
          destruct (run_nodes P Abort su th ns s1) as [rs s2]
      end.
      simpl in Hs. subst s2. cbn [snd].
      match goal with
      | |- context [run_afters P ?su 0 ?hs ?th ?s1] =>
          pose proof (useFixture_after_run su th s1) as (_ & _ & He & Ht)
      end.
      cbv zeta in He, Ht. rewrite He, Ht. simpl. split; [reflexivity|].
      eexists. split; [rewrite <- !app_assoc; reflexivity|].
      right. exists dir. left. reflexivity.
    + (* generation went through: the suggested commands run *)
      match goal with
      | |- context [run_nodes P Run ?su ?th ?ns ?s1] =>
          pose proof (suggested_run commands su th s1) as (Hf & Hc & He & d & Hd & Hsp);
          destruct (run_nodes P Run su th ns s1) as [rs s2]
      end.
      simpl in Hf, Hc, He, Hd, Hsp. cbn [snd].
      match goal with
      | |- context [run_afters P ?su 0 ?hs ?th ?s1] =>
          pose proof (useFixture_after_run su th s1) as (_ & _ & He' & Ht')
      end.
      cbv zeta in He', Ht'. rewrite He', Ht', He, Hd. split; [reflexivity|].
      eexists. split; [rewrite <- !app_assoc; reflexivity|].
      right. exists dir. right.
      simpl. rewrite !spawned_app, Hsp. simpl. rewrite app_nil_r. reflexivity.
  - (* the fixture is missing: the group is aborted *)
    cbv beta iota zeta.
    match goal with
    | |- context [run_nodes P Abort ?su ?th ?ns ?s1] =>
        pose proof (run_nodes_off P Abort ns ltac:(discriminate) su th s1) as [Hs _];
        destruct (run_nodes P Abort su th ns s1) as [rs s2]
    end.
    simpl in Hs. subst s2. cbn [snd].
    match goal with
    | |- context [run_afters P ?su 0 ?hs ?th ?s1] =>
        pose proof (useFixture_after_run su th s1) as (_ & _ & He & Ht)
    end.
    cbv zeta in He, Ht. rewrite He, Ht. simpl. split; [reflexivity|].
    eexists. split; [rewrite <- !app_assoc; reflexivity|].
    left. reflexivity.
Qed.

End Suite.

(** ** Invariants of the mode and of the environment *)

Ltac frame_step lem_exec lem_assert lem_exists lem_join lem_env :=
  first
    [ apply lem_exec | apply lem_assert | apply lem_exists | apply lem_join
    | apply lem_env | apply preserves_ret | apply preserves_throw
    | apply preserves_bind; [|intros ?] ].

Section Frame.

Context (P : Platform) (K : Harness P -> Prop) (ok : Event -> Prop) (t0 : list Event).

Implicit Types (s : Harness P) (this : Ctx).

Hypothesis K_rest : forall s w d t, K s -> K (mkHarness w (fatal s) d (penv s) t).
Hypothesis ok_hook : forall suite k i, ok (EvHook suite k i).
Hypothesis ok_body : forall s name, K s -> ok (EvBody name (fatal s)).
Hypothesis ok_assert : forall b, ok (EvAssert b).
Hypothesis ok_spawn : forall s cmd dir, K s -> ok (EvSpawn cmd dir (penv s) (fatal s)).
Hypothesis ok_generation : forall s flag dir,
  K s -> ok (EvSpawn (hardhatBinary P) dir (<[flag := "true"]> (penv s)) (fatal s)).

Lemma frame_log s (e : Event) :
  frame_inv K ok t0 s -> ok e -> frame_inv K ok t0 (log P e s).
Proof.
  intros [HK Hg] He. split.
  - apply (K_rest s (world s) (cwd s) (trace s ++ [e]) HK).
  - eapply grew_ext; [exact Hg | reflexivity | repeat constructor; exact He].
Qed.

Lemma frame_hook s suite k i :
  frame_inv K ok t0 s -> frame_inv K ok t0 (log P (EvHook suite k i) s).
Proof. intros H. apply frame_log; [exact H | apply ok_hook]. Qed.

Lemma frame_body s name :
  frame_inv K ok t0 s -> frame_inv K ok t0 (log P (EvBody name (fatal s)) s).
Proof. intros H. apply frame_log; [exact H | apply ok_body, H]. Qed.

Lemma frame_shell_exec cmd : preserves P (frame_inv K ok t0) (shell_exec P cmd None).
Proof.
  intros s [HK Hg]. unfold shell_exec. simpl.
  destruct (spawn P _ _ _ _) as [w r].
  destruct (fatal s && negb (code r =? 0)); simpl; (split;
    [ apply (K_rest s w (cwd s) _ HK)
    | eapply grew_ext; [exact Hg | reflexivity | repeat constructor; apply ok_spawn, HK] ]).
Qed.

Lemma frame_chai_assert b msg : preserves P (frame_inv K ok t0) (chai_assert P b msg).
Proof.
  intros s Hs. unfold chai_assert. destruct b; simpl; apply frame_log; auto.
Qed.

Lemma frame_existsSync p : preserves P (frame_inv K ok t0) (fs_existsSync P p).
Proof. intros s Hs. exact Hs. Qed.

Lemma frame_join this name : preserves P (frame_inv K ok t0) (join_testDirPath P this name).
Proof. intros s Hs. unfold join_testDirPath. destruct (testDirPath this); exact Hs. Qed.

Lemma frame_process_env : preserves P (frame_inv K ok t0) (process_env P).
Proof. intros s Hs. exact Hs. Qed.

Lemma frame_useFixture_before project this :
  preserves P (frame_inv K ok t0) (useFixture_before P project this).
Proof.
  intros s [HK Hg]. unfold useFixture_before.
  destruct (acquire P (world s) project) as [[w dir]|]; simpl; [|split; assumption].
  split; [apply (K_rest s w dir (trace s) HK) | exact Hg].
Qed.

Lemma frame_useFixture_after this : preserves P (frame_inv K ok t0) (useFixture_after P this).
Proof.
  intros s [HK Hg]. unfold useFixture_after.
  destruct (testDirPath this); simpl; [|split; assumption].
  split; [apply (K_rest s _ (cwd s) (trace s) HK) | exact Hg].
Qed.

Lemma frame_before_sample_projects this :
  preserves P (frame_inv K ok t0) (before_sample_projects P this).
Proof. intros s Hs. unfold before_sample_projects. destruct (String.eqb _ _); exact Hs. Qed.

Lemma frame_generate flag this :
  preserves P (frame_inv K ok t0) (generate_sample_project P flag this).
Proof.
  intros s [HK Hg]. unfold generate_sample_project, process_env. unfold_body.
  destruct (spawn P _ _ _ _) as [w r]. simpl.
  destruct (fatal s && negb (code r =? 0)); simpl; (split;
    [ apply (K_rest s w (cwd s) _ HK)
    | eapply grew_ext; [exact Hg | reflexivity | repeat constructor; apply ok_generation, HK] ]).
Qed.

Ltac frame_body_tac :=
  unfold assert_equal, assert_isTrue, assert_match, assert_notMatch;
  repeat frame_step frame_shell_exec frame_chai_assert frame_existsSync frame_join
    frame_process_env.

Lemma frame_it_version this : preserves P (frame_inv K ok t0) (it_version P this).
Proof. unfold it_version. frame_body_tac. Qed.

Lemma frame_basic_project : node_preserves P (frame_inv K ok t0) (basic_project P).
Proof.
  simpl. split_conj; intros this.
  - apply frame_useFixture_before.
  - apply frame_useFixture_after.
  - apply frame_it_version.
  - unfold it_compile. frame_body_tac.
  - unfold it_test_programmatically. frame_body_tac.
  - unfold it_test_files. frame_body_tac.
  - unfold it_test_parallel. frame_body_tac.
Qed.

Lemma frame_sample_project title fixture flag commands :
  node_preserves P (frame_inv K ok t0) (sample_project P title fixture flag commands).
Proof.
  simpl. split_conj; try intros this.
  - apply frame_useFixture_before.
  - apply frame_generate.
  - apply frame_useFixture_after.
  - induction commands as [|c cs IH]; simpl; [exact Logic.I|].
    split; [|exact IH]. intros this. unfold it_suggested. frame_body_tac.
Qed.

Lemma frame_sample_projects : node_preserves P (frame_inv K ok t0) (sample_projects P).
Proof.
  unfold sample_projects, basic_sample_project, advanced_sample_project,
    advanced_ts_sample_project.
  cbn [node_preserves]. split_conj.
  - intros this. apply frame_before_sample_projects.
  - apply frame_sample_project.
  - apply frame_sample_project.
  - apply frame_sample_project.
Qed.

End Frame.

(** ** Properties of the whole run *)

Section SuiteWide.

Context (P : Platform).

Implicit Types (s : Harness P) (this : Ctx) (name path : list string).

Lemma env_it_compile_outside (E : gmap string string) (t0 : list Event) this :
  preserves P (frame_inv (env_is E) (ambient_or_generation P E) t0) (it_compile_outside P this).
Proof.
  intros s [HK Hg]. unfold env_is in HK. subst E.
  unfold it_compile_outside. unfold_body.
  repeat first [split_atom | name_spawn];
    (split; [reflexivity|]);
    (eapply grew_ext;
       [exact Hg | simpl; rewrite <- ?app_assoc; reflexivity | repeat constructor]).
Qed.

Lemma env_walk (E : gmap string string) (t0 : list Event) (n : Node P) :
  node_preserves P (frame_inv (env_is E) (ambient_or_generation P E) t0) n ->
  forall (m : Mode) path this s,
    frame_inv (env_is E) (ambient_or_generation P E) t0 s ->
    frame_inv (env_is E) (ambient_or_generation P E) t0 (snd (run_node P m path this n s)).
Proof.
  intros Hn m path this s. apply run_node_preserves; [| |exact Hn].
  - intros s0 suite k i. apply frame_hook; unfold env_is; simpl; auto.
  - intros s0 nm. apply frame_body; unfold env_is; simpl; auto.
Qed.

(** X11: no hook and no scenario of the suite writes [process.env]: the run
    ends with the environment it started with, and every process it spawns
    gets that environment, except the bare binary of the generation hooks,
    which gets it with one variable set to "true". *)
Theorem environment_untouched s :
  let s' := snd (run_mocha P s) in
  penv s' = penv s /\
  grew (ambient_or_generation P (penv s)) (trace s) s'.
Proof.
  set (E := penv s).
  assert (Hnode : forall n, In n [basic_project P; sample_projects P; no_project P] ->
            node_preserves P (frame_inv (env_is E) (ambient_or_generation P E) (trace s)) n).
  { intros n [<- | [<- | [<- | []]]].
    - apply frame_basic_project; unfold env_is; simpl; auto.
    - apply frame_sample_projects; unfold env_is; simpl; auto.
      intros s0 flag dir ->. right. eauto.
    - simpl. split_conj; intros this.
      + apply frame_useFixture_before. unfold env_is; simpl; auto.
      + apply frame_useFixture_after. unfold env_is; simpl; auto.
      + apply frame_it_version; unfold env_is; simpl; auto.
      + apply env_it_compile_outside. }
  assert (H : frame_inv (env_is E) (ambient_or_generation P E) (trace s)
                (snd (run_mocha P s))).
  { unfold run_mocha, e2e_tests.
    rewrite run_node_describe_run, before_e2e_run. cbv beta iota zeta.
    match goal with
    | |- context [run_nodes P Run ?suite ?this ?ns ?s1] =>
        pose proof (run_nodes_preserves P
                      (frame_inv (env_is E) (ambient_or_generation P E) (trace s)) ns) as Hk;
        specialize (fun H => Hk H Run suite this s1);
        destruct (run_nodes P Run suite this ns s1) as [rs s2]
    end.
    simpl in *. apply Hk.
    - split_conj; intros m path this s0; apply env_walk; apply Hnode; simpl; auto.
    - split; [reflexivity|].
      eapply grew_ext; [apply grew_refl | reflexivity | repeat constructor]. }
  destruct H as [HK Hg]. split; [exact HK | exact Hg].
Qed.

Lemma tolerant_app (t1 t2 : list Event) : tolerant (t1 ++ t2) = tolerant t1 ++ tolerant t2.
Proof.
  induction t1 as [|e t1 IH]; [reflexivity|].
  destruct e as [| | c d e [|] |]; simpl; rewrite IH; reflexivity.
Qed.

Lemma tolerant_none (d : list Event) : Forall spawn_strict d -> tolerant d = [].
Proof.
  induction 1 as [|e d He _ IH]; [reflexivity|].
  destruct e as [| | c dr e [|] |]; simpl in *; try exact IH. discriminate.
Qed.

Lemma tolerant_no_spawn (d : list Event) :
  Forall (fun e => is_spawn e = false) d -> tolerant d = [].
Proof.
  induction 1 as [|e d He _ IH]; [reflexivity|].
  destruct e as [| | c dr e [|] |]; simpl in *; try exact IH; discriminate.
Qed.

Lemma strict_walk (t0 : list Event) (n : Node P) :
  node_preserves P (frame_inv strict_on spawn_strict t0) n ->
  forall (m : Mode) path this s,
    frame_inv strict_on spawn_strict t0 s ->
    frame_inv strict_on spawn_strict t0 (snd (run_node P m path this n s)).
Proof.
  intros Hn m path this s. apply run_node_preserves; [| |exact Hn].
  - intros s0 suite k i. apply frame_hook; unfold strict_on; simpl; auto.
  - intros s0 nm. apply frame_body; unfold strict_on; simpl; auto.
Qed.

Lemma run_node_it_run path this (t : string) (fn : TestFn P) s :
  snd (run_node P Run path this (It t fn) s) = snd (run_test P (path ++ [t]) fn this s).
Proof. simpl. destruct (run_test P _ _ _ _); reflexivity. Qed.

(** The group "no project" started in strict mode: at most one process runs
    in tolerant mode, and it is the compile of its second scenario. *)
Lemma no_project_tolerant path this s :
  fatal s = true ->
  exists d, trace (snd (run_node P Run path this (no_project P) s)) = trace s ++ d /\
    (tolerant d = [] \/
     exists dir env,
       tolerant d = [EvSpawn (hardhatBinary P +:+ " compile") dir env false]).
Proof.
  intros Hf. unfold no_project. rewrite run_node_describe_run.
  set (suite := path ++ ["no project"]).
  cbn [run_befores]. unfold useFixture_before at 1. cbn [world log].
  destruct (acquire P (world s) "empty") as [[w dir]|]; cbv beta iota zeta;
    cbn [log fatal penv trace world cwd].
  - (* the fixture is there: both scenarios run *)
    set (s1 := mkHarness w (fatal s) dir (penv s) (trace s ++ [EvHook suite BeforeAll 0])).
    assert (H1 : frame_inv strict_on spawn_strict (trace s) s1).
    { split; [exact Hf|].
      eapply grew_ext; [apply grew_refl | reflexivity | repeat constructor]. }
    rewrite !run_nodes_cons. cbn [snd run_nodes].
    rewrite !run_node_it_run.
    set (s2 := snd (run_test P (suite ++ ["should print the hardhat version"])
                      (it_version P) (mkCtx (Some dir)) s1)).
    assert (H2 : frame_inv strict_on spawn_strict (trace s) s2).
    { subst s2. apply run_test_preserves; [| |exact H1].
      - intros s0 nm. apply frame_body; unfold strict_on; simpl; auto.
      - intros this'. apply frame_it_version; unfold strict_on; simpl; auto. }
    destruct H2 as [Hf2 (d2 & Hd2 & Hok2)].
    destruct (it_compile_outside_bracket P
                (suite ++ ["should print an error message if you try to compile"])
                (mkCtx (Some dir)) s2) as (_ & d3 & Hd3 & Hno3).
    match goal with
    | |- context [run_afters P ?su 0 ?hs ?th ?s3] =>
        pose proof (useFixture_after_run P su th s3) as (_ & _ & _ & Ht)
    end.
    cbv zeta in Ht. rewrite Ht, Hd3, Hd2. unfold strict_on in Hf2. rewrite Hf2.
    eexists. split; [rewrite <- !app_assoc; reflexivity|].
    right. exists (cwd s2), (penv s2).
    rewrite tolerant_app, (tolerant_none d2 Hok2). simpl.
    rewrite tolerant_app, (tolerant_no_spawn d3 Hno3). reflexivity.
  - (* the fixture is missing: nothing runs *)
    match goal with
    | |- context [run_nodes P Abort ?su ?th ?ns ?s1] =>
        pose proof (run_nodes_off P Abort ns ltac:(discriminate) su th s1) as [Hs _];
        destruct (run_nodes P Abort su th ns s1) as [rs s2]
    end.
    simpl in Hs. subst s2. cbn [snd].
    match goal with
    | |- context [run_afters P ?su 0 ?hs ?th ?s1] =>
        pose proof (useFixture_after_run P su th s1) as (_ & _ & _ & Ht)
    end.
    cbv zeta in Ht. rewrite Ht. simpl.
    eexists. split; [rewrite <- !app_assoc; reflexivity|]. left. reflexivity.
Qed.

(** X12: in the whole run at most one process is spawned in tolerant mode;
    when there is one it is [hardhat compile], spawned by the second
    scenario of "no project".  Every other process of the suite runs with
    [config.fatal] on. *)
Theorem one_tolerant_process s :
  exists d, trace (snd (run_mocha P s)) = trace s ++ d /\
    (tolerant d = [] \/
     exists dir env,
       tolerant d = [EvSpawn (hardhatBinary P +:+ " compile") dir env false]).
Proof.
  unfold run_mocha, e2e_tests.
  rewrite run_node_describe_run, before_e2e_run. cbv beta iota zeta.
  set (suite := [] ++ ["e2e tests"]).
  set (s1 := mkHarness (world s) true (cwd s) (penv s)
               (trace s ++ [EvHook suite BeforeAll 0])).
  assert (H1 : frame_inv strict_on spawn_strict (trace s) s1).
  { split; [reflexivity|].
    eapply grew_ext; [apply grew_refl | reflexivity | repeat constructor]. }
  rewrite !run_nodes_cons. cbn [snd fst run_nodes].
  set (sA := snd (run_node P Run suite (mkCtx None) (basic_project P) s1)).
  assert (HA : frame_inv strict_on spawn_strict (trace s) sA).
  { subst sA. apply strict_walk; [|exact H1].
    apply frame_basic_project; unfold strict_on; simpl; auto. }
  set (sB := snd (run_node P Run suite (mkCtx None) (sample_projects P) sA)).
  assert (HB : frame_inv strict_on spawn_strict (trace s) sB).
  { subst sB. apply strict_walk; [|exact HA].
    apply frame_sample_projects; unfold strict_on; simpl; auto. }
  destruct HB as [HfB (dB & HdB & HokB)].
  destruct (no_project_tolerant suite (mkCtx None) sB HfB) as (dC & HdC & Hcase).
  cbn [run_afters snd fst]. fold sA sB. rewrite HdC, HdB.
  eexists. split; [rewrite <- !app_assoc; reflexivity|].
  rewrite tolerant_app, (tolerant_none dB HokB). exact Hcase.
Qed.




(** **** Skips *)

Lemma never_skips_ret {A : Type} (a : A) : never_skips (mret a : M P A).
Proof. intros s. discriminate. Qed.

Lemma never_skips_bind {A B : Type} (m : M P A) (k : A -> M P B) :
  never_skips m -> (forall a, never_skips (k a)) -> never_skips (m ≫= k).
Proof.
  intros Hm Hk s. rewrite bind_run. specialize (Hm s).
  destruct (m s) as [[a|e] s']; [apply Hk|].
  simpl in *. intros H. apply Hm. injection H as ->. reflexivity.
Qed.

Lemma never_skips_shell_exec cmd env : never_skips (shell_exec P cmd env).
Proof.
  intros s. unfold shell_exec. destruct (spawn P _ _ _ _) as [w r].
  destruct (fatal s && negb (code r =? 0)); discriminate.
Qed.

Lemma never_skips_shell_set flag : never_skips (shell_set P flag).
Proof.
  intros s. unfold shell_set.
  destruct (String.eqb flag "-e"); [discriminate|].
  destruct (String.eqb flag "+e"); discriminate.
Qed.

Lemma never_skips_chai_assert b msg : never_skips (chai_assert P b msg).
Proof. intros s. unfold chai_assert. destruct b; discriminate. Qed.

Lemma never_skips_existsSync p : never_skips (fs_existsSync P p).
Proof. intros s. discriminate. Qed.

Lemma never_skips_join this (leaf : string) : never_skips (join_testDirPath P this leaf).
Proof. intros s. unfold join_testDirPath. destruct (testDirPath this); discriminate. Qed.

Lemma never_skips_process_env : never_skips (process_env P).
Proof. intros s. discriminate. Qed.

Lemma never_skips_useFixture_before project this :
  never_skips (useFixture_before P project this).
Proof.
  intros s. unfold useFixture_before.
  destruct (acquire P (world s) project) as [[w dir]|]; discriminate.
Qed.

Ltac skip_step :=
  first
    [ apply never_skips_shell_exec | apply never_skips_shell_set
    | apply never_skips_chai_assert | apply never_skips_existsSync
    | apply never_skips_join | apply never_skips_process_env
    | apply never_skips_ret
    | apply never_skips_bind; [|intros ?] ].

Ltac skip_body :=
  unfold assert_equal, assert_isTrue, assert_match, assert_notMatch;
  repeat skip_step.

Lemma never_skips_sample_project title fixture flag commands :
  node_never_skips (sample_project P title fixture flag commands).
Proof.
  simpl. split_conj; try intros this.
  - apply never_skips_useFixture_before.
  - unfold generate_sample_project. skip_body.
  - induction commands as [|c cs IH]; simpl; [exact Logic.I|].
    split; [|exact IH]. intros this. unfold it_suggested. skip_body.
Qed.

(** Off Windows no hook and no body of the suite calls [this.skip()]. *)
Lemma e2e_never_skips : os_type P <> "Windows_NT" -> node_never_skips (e2e_tests P).
Proof.
  intros Hos. unfold e2e_tests, sample_projects, basic_sample_project,
    advanced_sample_project, advanced_ts_sample_project.
  cbn [node_never_skips basic_project no_project]. split_conj; try intros this.
  - unfold before_e2e. skip_body.
  - apply never_skips_useFixture_before.
  - unfold it_version. skip_body.
  - unfold it_compile. skip_body.
  - unfold it_test_programmatically. skip_body.
  - unfold it_test_files. skip_body.
  - unfold it_test_parallel. skip_body.
  - intros s. unfold before_sample_projects.
    destruct (String.eqb_spec (os_type P) "Windows_NT"); [contradiction | discriminate].
  - apply never_skips_sample_project.
  - apply never_skips_sample_project.
  - apply never_skips_sample_project.
  - apply never_skips_useFixture_before.
  - unfold it_version. skip_body.
  - unfold it_compile_outside. skip_body.
Qed.

Lemma run_befores_never_skip path (bs : list (BeforeFn P)) :
  Forall (fun h => forall this, never_skips (h this)) bs ->
  forall i this s, fst (fst (run_befores P path i bs this s)) <> Skip.
Proof.
  induction 1 as [|h hs Hh _ IH]; intros i this s; simpl; [discriminate|].
  specialize (Hh this (log P (EvHook path BeforeAll i) s)).
  destruct (h this _) as [[this'|[]] s']; simpl in *;
    first [apply IH | discriminate | congruence].
Qed.

(** A tree without [this.skip()] reports no pending scenario. *)
Lemma run_node_never_pending (n : Node P) :
  node_never_skips n ->
  forall (m : Mode) path this s, m <> Skip ->
    Forall (fun r => snd r <> Pending) (fst (run_node P m path this n s)).
Proof.
  induction n as [t fn | t bs afs cs IH] using Node_nested_ind;
    intros Hn m path this s Hm.
  - destruct m; simpl; try congruence.
    + specialize (Hn this (log P (EvBody (path ++ [t]) (fatal s)) s)).
      unfold run_test. destruct (fn this _) as [[[]|[]] s']; simpl in *;
        repeat constructor; simpl; congruence.
    + repeat constructor. discriminate.
  - destruct Hn as [Hbs Hcs].
    assert (Hkids : forall m' this' s', m' <> Skip ->
              Forall (fun r => snd r <> Pending)
                (fst (run_nodes P m' (path ++ [t]) this' cs s'))).
    { intros m' this' s' Hm'. revert s'.
      induction IH as [|c cs Hc _ IHcs]; intros s'; [constructor|].
      destruct Hcs as [Hc1 Hcs]. rewrite run_nodes_cons. cbn [fst].
      apply Forall_app. split; [apply Hc; assumption | apply IHcs; exact Hcs]. }
    destruct m; try congruence.
    + rewrite run_node_describe_run.
      pose proof (run_befores_never_skip (path ++ [t]) bs Hbs 0%nat this s) as Hb.
      destruct (run_befores P (path ++ [t]) 0 bs this s) as [[m' this'] s1].
      simpl in Hb. specialize (Hkids m' this' s1 Hb).
      destruct (run_nodes P m' (path ++ [t]) this' cs s1) as [rs s2]. exact Hkids.
    + rewrite run_node_describe_off by discriminate. apply Hkids. discriminate.
Qed.

(** X14: scenarios are skipped on Windows only: on a platform whose
    [os.type()] is not "Windows_NT" the run reports no pending scenario. *)
Theorem pending_on_windows_only s :
  os_type P <> "Windows_NT" ->
  Forall (fun r => snd r <> Pending) (fst (run_mocha P s)).
Proof.
  intros Hos. unfold run_mocha.
  apply run_node_never_pending; [apply e2e_never_skips; exact Hos | discriminate].
Qed.

(** **** A failed generation *)

Lemma suggested_not_run (commands : list string) path this s :
  map snd (fst (run_nodes P Abort path this (suggested_scenarios P commands) s)) =
  replicate (length commands) NotRun.
Proof.
  revert s. induction commands as [|c cs IH]; intros s; [reflexivity|].
  change (suggested_scenarios P (c :: cs))
    with (It (suggested_title c) (it_suggested P c) :: suggested_scenarios P cs).
  rewrite run_nodes_cons. cbn [fst snd].
  rewrite run_node_it_off by discriminate. cbn [fst snd].
  rewrite map_app, IH. reflexivity.
Qed.

(** X15: when the generation of a sample project exits with a non-zero
    code in strict mode, the group is aborted: none of its suggested
    commands is run, every scenario of the group is counted as not run,
    and the generation is the only process that the group has spawned. *)
Theorem generation_failure_aborts_group (title fixture flag : string)
    (commands : list string) path this s (w : World P) (dir : string) :
  fatal s = true ->
  acquire P (world s) fixture = Some (w, dir) ->
  code (snd (spawn P w dir (<[flag := "true"]> (penv s)) (hardhatBinary P))) <> 0 ->
  let out := run_node P Run path this
               (sample_project P title fixture flag commands) s in
  map snd (fst out) = replicate (length commands) NotRun /\
  exists d, trace (snd out) = trace s ++ d /\
    spawned d = [EvSpawn (hardhatBinary P) dir (<[flag := "true"]> (penv s)) true].
Proof.
  intros Hf Hacq Hcode out. subst out. unfold sample_project.
  rewrite run_node_describe_run, sample_project_befores, Hacq.
  destruct (spawn P w dir _ (hardhatBinary P)) as [w1 r]. simpl in Hcode.
  apply Z.eqb_neq in Hcode. rewrite Hf, Hcode. cbv beta iota zeta. cbn [andb negb].
  match goal with
  | |- context [run_nodes P Abort ?su ?th ?ns ?s1] =>
      pose proof (run_nodes_off P Abort ns ltac:(discriminate) su th s1) as [Hs _];
      pose proof (suggested_not_run commands su th s1) as Hr;
      destruct (run_nodes P Abort su th ns s1) as [rs s2]
  end.
  cbn [fst snd] in *. subst s2. split; [exact Hr|].
  match goal with
  | |- context [run_afters P ?su 0 ?hs ?th ?s1] =>
      pose proof (useFixture_after_run P su th s1) as (_ & _ & _ & Ht)
  end.
  cbv zeta in Ht. rewrite Ht. cbn [trace].
  eexists. split; [rewrite <- !app_assoc; reflexivity | reflexivity].
Qed.

(** **** The commands of a scenario *)


(** **** The count of passing tests *)

(** X17: the checks on the count of passing tests are substring checks.
    The parallel scenario passes exactly when its three commands exit with
    0 and the output of the test run contains "2 passing" somewhere, so
    "12 passing" is accepted as well; the programmatic scenario asks in
    addition that "0 passing" occurs nowhere, so "10 passing" is refused. *)
Theorem passing_counts_are_substrings name this s :
  let bin := hardhatBinary P in
  let clean1 := run_in P s (world s) (bin +:+ " clean") in
  let parallel := run_in P s (fst clean1) (bin +:+ " test --parallel") in
  let pclean := run_in P s (fst parallel) (bin +:+ " clean") in
  let serial := run_in P s (fst clean1) (bin +:+ " run ./scripts/multi-run-test.js") in
  let sclean := run_in P s (fst serial) (bin +:+ " clean") in
  (fst (run_test P name (it_test_parallel P) this s) = Passed <->
   code (snd clean1) = 0 /\ code (snd parallel) = 0 /\
   (exists pre post, stdout (snd parallel) = pre +:+ "2 passing" +:+ post) /\
   code (snd pclean) = 0) /\
  (fst (run_test P name (it_test_programmatically P) this s) = Passed <->
   code (snd clean1) = 0 /\ code (snd serial) = 0 /\
   (exists pre post, stdout (snd serial) = pre +:+ "2 passing" +:+ post) /\
   ~ (exists pre post, stdout (snd serial) = pre +:+ "0 passing" +:+ post) /\
   code (snd sclean) = 0).
Proof.
  intros bin clean1 parallel pclean serial sclean.
  pose proof (RegExpFacts.test_literal "2 passing") as H2.
  pose proof (RegExpFacts.test_literal "0 passing") as H0.
  fold twoPassingRegExp in H2. fold zeroPassingRegExp in H0.
  split.
  - rewrite it_test_parallel_passes. fold bin clean1 parallel pclean.
    rewrite <- H2. tauto.
  - rewrite it_test_programmatically_passes. fold bin clean1 serial sclean.
    rewrite <- H2, <- H0.
    destruct (RegExp.test zeroPassingRegExp (stdout (snd serial))); intuition congruence.
Qed.

End SuiteWide.

(** ** The statements at work on concrete platforms *)

Example healthy_bodies :
  length (filter (fun e => is_body e = true)
            (trace (snd (run_mocha healthy (fresh healthy [] ∅))))) = 33%nat.
Proof. vm_compute. reflexivity. Qed.

Example windows_reports :
  map snd (fst (run_mocha healthy_windows windows_state)) =
  replicate 5 Passed ++ replicate 26 Pending ++ replicate 2 Passed.
Proof. vm_compute. reflexivity. Qed.

Example failing_reports :
  map snd (fst (run_mocha failing (fresh failing [] ∅))) =
  replicate 5 Failed ++ replicate 26 NotRun ++ replicate 2 Failed.
Proof. vm_compute. reflexivity. Qed.





(** A command that exits with 1, in strict and in tolerant mode. *)
Lemma non_zero_exit_strict_and_tolerant_witness :
  code (snd (spawn failing (world failing_state) (cwd failing_state)
               (default (penv failing_state) None) "node scripts/sample-script.js")) <> 0 /\
  fst (shell_exec failing "node scripts/sample-script.js" None failing_state) =
    Thrown (ShellError (mkResult 1 "" "")) /\
  fst (shell_exec failing "node scripts/sample-script.js" None (fresh failing [] ∅)) =
    Done (mkResult 1 "" "").
Proof.
  assert (Hne : code (snd (spawn failing (world failing_state) (cwd failing_state)
                   (default (penv failing_state) None) "node scripts/sample-script.js")) <> 0)
    by (vm_compute; discriminate).
  split; [exact Hne|]. split.
  - exact (proj1 (proj1 (non_zero_exit_strict_and_tolerant failing
             "node scripts/sample-script.js" None [] (mkCtx None) failing_state Hne)
             eq_refl)).
  - vm_compute. reflexivity.
Defined.

(** The group "sample projects" of the suite on a Windows platform. *)
Lemma skipped_on_windows_witness :
  os_type healthy_windows = "Windows_NT" /\
  snd (run_node healthy_windows Run ["e2e tests"] (mkCtx None)
         (sample_projects healthy_windows) windows_state) =
    log healthy_windows (EvHook ["e2e tests"; "sample projects"] BeforeAll 0) windows_state /\
  length (fst (run_node healthy_windows Run ["e2e tests"] (mkCtx None)
                 (sample_projects healthy_windows) windows_state)) = 26%nat /\
  Forall (fun r => snd r = Pending)
    (fst (run_node healthy_windows Run ["e2e tests"] (mkCtx None)
            (sample_projects healthy_windows) windows_state)).
Proof.
  split; [reflexivity|].
  exact (skipped_on_windows healthy_windows ["e2e tests"] (mkCtx None) windows_state eq_refl).
Defined.

(** The documented hardhat on Linux: nothing is pending. *)
Lemma pending_on_windows_only_witness :
  os_type healthy <> "Windows_NT" /\
  Forall (fun r => snd r <> Pending) (fst (run_mocha healthy (fresh healthy [] ∅))).
Proof.
  assert (Hos : os_type healthy <> "Windows_NT") by discriminate.
  split; [exact Hos|].
  exact (pending_on_windows_only healthy (fresh healthy [] ∅) Hos).
Defined.

(** The basic sample project on a platform where every command fails. *)
Lemma generation_failure_aborts_group_witness :
  fatal failing_group_state = true /\
  map snd (fst (run_node failing Run ["e2e tests"; "sample projects"] (mkCtx None)
                  (basic_sample_project failing) failing_group_state)) =
    replicate 4 NotRun.
Proof.
  split; [reflexivity|].
  apply (generation_failure_aborts_group failing
           "basic sample project" "basic-sample-project"
           "HARDHAT_CREATE_BASIC_SAMPLE_PROJECT_WITH_DEFAULTS" (basic_commands failing)
           ["e2e tests"; "sample projects"] (mkCtx None) failing_group_state
           [] "/tmp/hardhat-e2e-basic-sample-project").
  - reflexivity.
  - reflexivity.
  - vm_compute. discriminate.
Defined.


(** ** The link component *)

Module DocsFacts.
Import Docs.

Example resolve_sibling :
  getAbsoluteHrefFromRelativePath "foo" "/a/b/c" = "/a/b/c/foo".
Proof. vm_compute. reflexivity. Qed.

Example resolve_parent :
  getAbsoluteHrefFromRelativePath "../foo" "/a/b/c" = "/a/b/../foo".
Proof. vm_compute. reflexivity. Qed.

Example resolve_index :
  getAbsoluteHrefFromRelativePath "./foo/index" "/a" = "/a/foo".
Proof. vm_compute. reflexivity. Qed.

Example resolve_indexing :
  getAbsoluteHrefFromRelativePath "x" "/indexing" = "ing/x".
Proof. vm_compute. reflexivity. Qed.

Example resolve_nothing :
  getAbsoluteHrefFromRelativePath "." "/" = "".
Proof. vm_compute. reflexivity. Qed.

Example resolve_on_fragment :
  getAbsoluteHrefFromRelativePath "setup" "/guides/start#install" =
  "/guides/start#install/setup".
Proof. vm_compute. reflexivity. Qed.

Example strip_md : stripExtension "guide.md" = "guide".
Proof. vm_compute. reflexivity. Qed.

Example strip_twice : stripExtension "guide.md.mdx" = "guide.md".
Proof. vm_compute. reflexivity. Qed.

Example strip_inner : stripExtension "guide.md/x" = "guide.md/x".
Proof. vm_compute. reflexivity. Qed.

(** **** Strings *)

Import RegExpFacts.

Lemma after_prefix_app (p rest : string) : after_prefix p (p +:+ rest) = Some rest.
Proof.
  induction p as [|a p IH]; [reflexivity|].
  rewrite append_cons. simpl. rewrite Ascii.eqb_refl. exact IH.
Qed.

Lemma after_prefix_Some (p s rest : string) :
  after_prefix p s = Some rest -> s = p +:+ rest.
Proof.
  revert s. induction p as [|a p IH]; intros s H; simpl in H.
  - injection H as ->. reflexivity.
  - destruct s as [|b s]; [discriminate|].
    destruct (Ascii.eqb_spec a b) as [->|]; [|discriminate].
    rewrite append_cons. f_equal. apply IH. exact H.
Qed.

Lemma startsWith_spec (s p : string) :
  startsWith s p = true <-> exists rest, s = p +:+ rest.
Proof.
  unfold startsWith. split.
  - destruct (after_prefix p s) as [rest|] eqn:H; [|discriminate].
    intros _. exists rest. apply after_prefix_Some. exact H.
  - intros [rest ->]. rewrite after_prefix_app. reflexivity.
Qed.

Lemma slash_free_app (s t : string) :
  slash_free (s +:+ t) = slash_free s && slash_free t.
Proof.
  induction s as [|c s IH]; [reflexivity|].
  rewrite append_cons. simpl. rewrite IH, andb_assoc. reflexivity.
Qed.

(** The pieces of a split hold no separator. *)
Lemma split_slash_free (s : string) : Forall (fun seg => slash_free seg = true) (split SLASH s).
Proof.
  induction s as [|c s IH]; simpl.
  - repeat constructor.
  - destruct (Ascii.eqb c SLASH) eqn:Hc.
    + constructor; [reflexivity | exact IH].
    + destruct (split SLASH s) as [|piece pieces].
      * repeat constructor. simpl. rewrite Hc. reflexivity.
      * inversion IH; subst. constructor; [|assumption].
        simpl. rewrite Hc. simpl. assumption.
Qed.

(** A slash-free string is the only piece of its split. *)
Lemma split_one (s : string) : slash_free s = true -> split SLASH s = [s].
Proof.
  induction s as [|c s IH]; [reflexivity|]. simpl.
  intros H. apply andb_true_iff in H as [Hc Hs].
  apply negb_true_iff in Hc. rewrite Hc, (IH Hs). reflexivity.
Qed.

Lemma join_rooted (segments : list string) :
  join "/" ("" :: segments) = slashed segments.
Proof.
  unfold join. destruct segments as [|x l]; [reflexivity|].
  cbn [String.concat]. rewrite append_nil_l.
  revert x. induction l as [|y l IH]; intros x.
  - simpl. rewrite append_nil_r. reflexivity.
  - cbn [String.concat slashed] in *. rewrite <- IH. reflexivity.
Qed.

(** **** The cut at "/index" *)

(** What follows a segment: nothing, or a slash. *)
Definition boundary (R : string) : Prop := R = "" \/ startsWith R "/" = true.

Lemma boundary_slashed (segments : list string) (R : string) :
  boundary R -> boundary (slashed segments +:+ R).
Proof.
  intros HR. destruct segments as [|x l]; [exact HR|].
  right. apply startsWith_spec. simpl. rewrite !append_cons, append_nil_l. eauto.
Qed.

(** A slash-free pattern that starts in a segment ends in it. *)
Lemma after_prefix_in_segment (p seg R : string) :
  slash_free p = true -> boundary R ->
  after_prefix p (seg +:+ R) <> None -> after_prefix p seg <> None.
Proof.
  revert seg. induction p as [|a p IH]; intros seg Hp HR H; [discriminate|].
  simpl in Hp. apply andb_true_iff in Hp as [Ha Hp]. apply negb_true_iff in Ha.
  destruct seg as [|b seg].
  - rewrite append_nil_l in H. exfalso. apply H.
    destruct HR as [->|HR]; [reflexivity|].
    apply startsWith_spec in HR as [rest ->]. simpl.
    unfold SLASH in Ha. rewrite Ha. reflexivity.
  - rewrite append_cons in H. simpl in *.
    destruct (Ascii.eqb a b); [apply IH; assumption | exact H].
Qed.

(** No cut inside a slash-free segment. *)
Lemma replace_through_segment (seg tail : string) :
  slash_free seg = true ->
  replace "/index" "" (seg +:+ tail) = seg +:+ replace "/index" "" tail.
Proof.
  induction seg as [|c seg IH]; intros H; [reflexivity|].
  simpl in H. apply andb_true_iff in H as [Hc Hs]. apply negb_true_iff in Hc.
  rewrite !append_cons.
  change (replace "/index" "" (String c (seg +:+ tail)))
    with (match (if Ascii.eqb SLASH c then after_prefix "index" (seg +:+ tail) else None) with
          | Some rest => "" +:+ rest
          | None => String c (replace "/index" "" (seg +:+ tail))
          end).
  rewrite Ascii.eqb_sym, Hc, IH by exact Hs. reflexivity.
Qed.

(** Segments that do not begin with "index" are passed over. *)
Lemma replace_passes (segments : list string) :
  Forall (fun seg => slash_free seg = true) segments ->
  Forall (fun seg => ~ index_like seg) segments ->
  forall R, boundary R ->
    replace "/index" "" (slashed segments +:+ R) =
    slashed segments +:+ replace "/index" "" R.
Proof.
  induction 1 as [|seg l Hseg _ IH]; intros Hidx R HR; [reflexivity|].
  inversion Hidx as [|? ? Hn Hl]; subst.
  cbn [slashed]. rewrite !append_assoc.
  assert (Hnone : after_prefix "index" (seg +:+ slashed l +:+ R) = None).
  { destruct (after_prefix "index" (seg +:+ slashed l +:+ R)) eqn:E; [|reflexivity].
    exfalso. apply Hn. unfold index_like, startsWith.
    pose proof (after_prefix_in_segment "index" seg (slashed l +:+ R) eq_refl
                  (boundary_slashed l R HR)) as H.
    destruct (after_prefix "index" seg); [reflexivity|].
    exfalso. apply H; [rewrite E; discriminate | reflexivity]. }
  change (replace "/index" "" ("/" +:+ seg +:+ slashed l +:+ R))
    with (match after_prefix "index" (seg +:+ slashed l +:+ R) with
          | Some rest => "" +:+ rest
          | None => String SLASH (replace "/index" "" (seg +:+ slashed l +:+ R))
          end).
  rewrite Hnone, replace_through_segment by exact Hseg.
  rewrite IH by assumption. reflexivity.
Qed.

Lemma Forall_filter_keep {A : Type} (P Q : A -> Prop) `{forall x, Decision (Q x)}
    (l : list A) :
  Forall P l -> Forall P (filter Q l).
Proof. rewrite !Forall_forall. intros Hl x [_ Hx]%list_elem_of_filter. auto. Qed.

Lemma newSegments_slash_free (href currentHref : string) :
  Forall (fun seg => slash_free seg = true)
    (baseSegments href currentHref ++ hrefSegments href).
Proof.
  apply Forall_app. split.
  - unfold baseSegments, slice0, pathSegments.
    apply Forall_take, Forall_filter_keep, split_slash_free.
  - unfold hrefSegments. apply Forall_filter_keep, split_slash_free.
Qed.

(** **** getAbsoluteHrefFromRelativePath *)

Lemma baseSegments_take (href currentHref : string) :
  baseSegments href currentHref =
  take (Nat.max (length (pathSegments currentHref)
                 - length (filter (fun segment => segment = "..") (hrefSegments href))) 1)
    (pathSegments currentHref).
Proof.
  unfold baseSegments, slice0, baseSegmentsCount, upperLevelsCount. f_equal. lia.
Qed.

(** X1: each ".." of the href drops one trailing segment of the current
    path, but the first segment is never dropped; without ".." the whole
    path is kept. *)
Theorem baseSegments_floor (href currentHref : string) :
  let n := length (pathSegments currentHref) in
  let k := length (filter (fun segment => segment = "..") (hrefSegments href)) in
  baseSegments href currentHref = take (Nat.max (n - k) 1) (pathSegments currentHref) /\
  (k = 0%nat -> baseSegments href currentHref = pathSegments currentHref) /\
  (forall first rest, pathSegments currentHref = first :: rest ->
     exists kept, baseSegments href currentHref = first :: kept).
Proof.
  intros n k.
  assert (E : baseSegments href currentHref
              = take (Nat.max (n - k) 1) (pathSegments currentHref))
    by apply baseSegments_take.
  split; [exact E|]. split.
  - intros Hk. rewrite E. apply take_ge. subst n. lia.
  - intros first rest Hp. rewrite E, Hp.
    destruct (Nat.max (n - k) 1) as [|m] eqn:Hm; [lia|]. simpl. eauto.
Qed.

(** X2: the result is the empty string, not "/", when the current path
    has no segment and the href is made of "." segments only; in every
    other case the path that is handed to the "/index" cut starts with a
    slash. *)
Theorem resolved_root_or_empty (href currentHref : string) :
  (pathSegments currentHref = [] -> hrefSegments href = [] ->
   getAbsoluteHrefFromRelativePath href currentHref = "") /\
  (pathSegments currentHref ++ hrefSegments href <> [] ->
   startsWith (join "/" (newSegments href currentHref)) "/" = true).
Proof.
  split.
  - intros Hp Hh. unfold getAbsoluteHrefFromRelativePath, newSegments, baseSegments.
    rewrite Hp, Hh. unfold slice0. rewrite take_nil. reflexivity.
  - intros Hne. unfold newSegments. rewrite join_rooted.
    destruct (baseSegments_floor href currentHref) as (_ & _ & Hkeep).
    destruct (pathSegments currentHref) as [|first rest] eqn:Hp.
    + simpl in Hne. unfold baseSegments, slice0. rewrite Hp, take_nil. simpl.
      destruct (hrefSegments href); [congruence | reflexivity].
    + destruct (Hkeep first rest eq_refl) as [kept ->]. reflexivity.
Qed.

(** X3: when no segment that is kept begins with "index", the result is
    the kept segments of the current path followed by the segments of the
    href, each after a slash: nothing is cut. *)
Theorem resolved_without_index (href currentHref : string) :
  Forall (fun segment => ~ index_like segment)
    (baseSegments href currentHref ++ hrefSegments href) ->
  getAbsoluteHrefFromRelativePath href currentHref =
  slashed (baseSegments href currentHref ++ hrefSegments href).
Proof.
  intros Hidx. unfold getAbsoluteHrefFromRelativePath, newSegments.
  rewrite join_rooted.
  rewrite <- (append_nil_r (slashed _)) at 1.
  rewrite replace_passes;
    [apply append_nil_r | apply newSegments_slash_free | exact Hidx | left; reflexivity].
Qed.

(** X4: the first segment that begins with "index" loses these letters
    and the slash before them, whether it is "index" itself (the segment
    disappears) or a longer word such as "indexing" (its rest is glued to
    the segment before); segments after it are not touched. *)
Theorem resolved_cut_at_index (href currentHref : string)
    (before after : list string) (rest : string) :
  baseSegments href currentHref ++ hrefSegments href =
    before ++ ("index" +:+ rest) :: after ->
  Forall (fun segment => ~ index_like segment) before ->
  getAbsoluteHrefFromRelativePath href currentHref =
  slashed before +:+ rest +:+ slashed after.
Proof.
  intros Hseg Hidx. unfold getAbsoluteHrefFromRelativePath, newSegments.
  rewrite join_rooted.
  pose proof (newSegments_slash_free href currentHref) as Hfree.
  rewrite Hseg in *. apply Forall_app in Hfree as [Hfree _].
  assert (Hs : slashed (before ++ ("index" +:+ rest) :: after)
               = slashed before +:+ ("/index" +:+ rest +:+ slashed after)).
  { clear. induction before as [|b l IH]; simpl.
    - reflexivity.
    - rewrite IH, !append_assoc. reflexivity. }
  rewrite Hs, replace_passes; try assumption.
  - f_equal.
  - right. reflexivity.
Qed.

Lemma split_not_nil (s : string) : split SLASH s <> [].
Proof.
  destruct s as [|c s]; simpl; [discriminate|].
  destruct (Ascii.eqb c SLASH); [discriminate|].
  destruct (split SLASH s); discriminate.
Qed.

(** The pieces of two strings joined by a slash are the pieces of the one
    followed by the pieces of the other. *)
Lemma split_app_slash (a b : string) :
  split SLASH (a +:+ "/" +:+ b) = split SLASH a ++ split SLASH b.
Proof.
  induction a as [|c a IH]; [reflexivity|].
  rewrite append_cons. simpl. destruct (Ascii.eqb c SLASH).
  - rewrite IH. reflexivity.
  - rewrite IH. pose proof (split_not_nil a) as Hne.
    destruct (split SLASH a) as [|p ps]; [congruence | reflexivity].
Qed.

(** X19: the current path is cut at slashes and nowhere else.  What follows
    its last slash is one segment, whatever it holds ("#" and "?" too); an
    empty one is dropped, so a slash at the end of the current path does
    not change the result. *)
Theorem current_path_cut_at_slashes (href currentHref : string) :
  (forall a b, pathSegments (a +:+ "/" +:+ b) = pathSegments a ++ pathSegments b) /\
  (forall last, slash_free last = true -> last <> "" ->
     pathSegments (currentHref +:+ "/" +:+ last) = pathSegments currentHref ++ [last]) /\
  getAbsoluteHrefFromRelativePath href (currentHref +:+ "/") =
    getAbsoluteHrefFromRelativePath href currentHref.
Proof.
  assert (Happ : forall a b, pathSegments (a +:+ "/" +:+ b) = pathSegments a ++ pathSegments b).
  { intros a b. unfold pathSegments. rewrite split_app_slash. apply filter_app. }
  split; [exact Happ|]. split.
  - intros last Hfree Hne. rewrite Happ. f_equal.
    unfold pathSegments. rewrite (split_one last Hfree).
    rewrite filter_cons_True by exact Hne. reflexivity.
  - assert (Hp : pathSegments (currentHref +:+ "/") = pathSegments currentHref).
    { rewrite <- (append_nil_r "/"), Happ. apply app_nil_r. }
    unfold getAbsoluteHrefFromRelativePath, newSegments, baseSegments, baseSegmentsCount.
    rewrite Hp. reflexivity.
Qed.

(** **** The extension and the kind of a link *)

Lemma lang_mdExtension (w : string) :
  RegExp.lang mdExtension w <-> w = ".md" \/ w = ".mdx".
Proof.
  unfold mdExtension. split.
  - intros H. apply lang_cat_inv in H as (s1 & s2 & -> & H1 & H2).
    apply (lang_Str ".md") in H1 as ->.
    apply lang_alt_inv in H2 as [H2|H2].
    + apply lang_chr_inv in H2 as ->. right. reflexivity.
    + apply lang_eps_inv in H2 as ->. left. reflexivity.
  - intros [-> | ->].
    + rewrite <- (append_nil_r ".md").
      apply RegExp.lang_cat; [apply (lang_Str ".md"); reflexivity|].
      apply RegExp.lang_alt_r. constructor.
    + change ".mdx" with (".md" +:+ "x").
      apply RegExp.lang_cat; [apply (lang_Str ".md"); reflexivity|].
      apply RegExp.lang_alt_l. constructor.
Qed.

Lemma string_length_app (s t : string) :
  String.length (s +:+ t) = (String.length s + String.length t)%nat.
Proof. induction s as [|c s IH]; [reflexivity|]. rewrite append_cons. simpl. lia. Qed.

(** What is removed is a word of the expression, or nothing. *)
Lemma remove_at_end_split (r : RegExp.re) (s : string) :
  exists w, s = remove_at_end r s +:+ w /\
    ((w = "" /\ forall pre suf, s = pre +:+ suf -> ~ RegExp.lang r suf) \/
     RegExp.lang r w).
Proof.
  induction s as [|c s IH]; simpl.
  - destruct (RegExp.nullable r) eqn:Hn.
    + exists "". split; [reflexivity|]. right. apply nullable_lang. exact Hn.
    + exists "". split; [reflexivity|]. left. split; [reflexivity|].
      intros pre suf Heq. symmetry in Heq. apply append_nil_inv in Heq as [_ ->].
      rewrite <- nullable_lang, Hn. discriminate.
  - destruct (RegExp.matches_all (RegExp.deriv c r) s) eqn:Hm.
    + exists (String c s). split; [reflexivity|]. right.
      apply (matches_all_lang (String c s)). exact Hm.
    + destruct IH as (w & Hw & Hcase). exists w. split.
      * rewrite append_cons. f_equal. exact Hw.
      * destruct Hcase as [[-> Hno] | Hl]; [|right; exact Hl].
        left. split; [reflexivity|]. intros pre suf Heq.
        symmetry in Heq. apply append_cons_inv in Heq as [[-> ->] | (pre' & -> & ->)].
        -- rewrite <- (matches_all_lang (String c s)). simpl. rewrite Hm. discriminate.
        -- apply (Hno pre' suf). reflexivity.
Qed.

Lemma append_inj_length (s1 s2 t1 t2 : string) :
  s1 +:+ t1 = s2 +:+ t2 -> String.length t1 = String.length t2 -> s1 = s2 /\ t1 = t2.
Proof.
  revert s2. induction s1 as [|a s1 IH]; intros s2 Heq Hlen.
  - destruct s2 as [|b s2]; [auto|].
    rewrite append_nil_l in Heq. subst t1. rewrite append_cons in Hlen.
    simpl in Hlen. rewrite string_length_app in Hlen. lia.
  - destruct s2 as [|b s2].
    + rewrite append_nil_l in Heq. subst t2. rewrite append_cons in Hlen.
      simpl in Hlen. rewrite string_length_app in Hlen. lia.
    + rewrite !append_cons in Heq. injection Heq as -> Heq.
      destruct (IH s2 Heq Hlen) as [-> ->]. auto.
Qed.

Lemma stripExtension_ends (t ext : string) :
  ext = ".md" \/ ext = ".mdx" -> stripExtension (t +:+ ext) = t.
Proof.
  intros Hext. unfold stripExtension.
  destruct (remove_at_end_split mdExtension (t +:+ ext)) as (w & Hw & Hcase).
  destruct Hcase as [[-> Hno] | Hl].
  - exfalso. apply (Hno t ext eq_refl). apply lang_mdExtension. exact Hext.
  - apply lang_mdExtension in Hl.
    assert (Hlast : forall u v : string, u +:+ ".md" = v +:+ ".mdx" -> False).
    { intros u v Huv.
      change ".mdx" with (".m" +:+ "dx") in Huv. change ".md" with ("." +:+ "md") in Huv.
      rewrite <- !append_assoc in Huv.
      apply append_inj_length in Huv as [_ Huv]; [discriminate | reflexivity]. }
    destruct Hext as [-> | ->], Hl as [-> | ->].
    + apply append_inj_length in Hw as [Hw _]; [congruence | reflexivity].
    + exfalso. exact (Hlast _ _ Hw).
    + exfalso. symmetry in Hw. exact (Hlast _ _ Hw).
    + apply append_inj_length in Hw as [Hw _]; [congruence | reflexivity].
Qed.

(** X5: [href.replace(/\.mdx?$/, "")] removes one final ".md" or ".mdx"
    and nothing else: a string that ends in neither is returned as it is,
    and an extension in the middle of the string is kept. *)
Theorem stripExtension_spec (s : string) :
  stripExtension (s +:+ ".md") = s /\
  stripExtension (s +:+ ".mdx") = s /\
  ((forall pre, s <> pre +:+ ".md" /\ s <> pre +:+ ".mdx") -> stripExtension s = s).
Proof.
  split; [apply stripExtension_ends; auto|]. split; [apply stripExtension_ends; auto|].
  intros Hnone. unfold stripExtension.
  destruct (remove_at_end_split mdExtension s) as (w & Hw & Hcase).
  destruct Hcase as [[-> _] | Hl].
  - rewrite append_nil_r in Hw. congruence.
  - exfalso. apply lang_mdExtension in Hl.
    destruct (Hnone (remove_at_end mdExtension s)) as [H1 H2].
    destruct Hl as [-> | ->]; congruence.
Qed.

(** The extension is removed from the end: what is left is a prefix. *)
Lemma stripExtension_prefix (href : string) :
  stripExtension href = href \/
  href = stripExtension href +:+ ".md" \/ href = stripExtension href +:+ ".mdx".
Proof.
  unfold stripExtension.
  destruct (remove_at_end_split mdExtension href) as (w & Hw & Hcase).
  destruct Hcase as [[-> _] | Hl].
  - left. rewrite append_nil_r in Hw. congruence.
  - right. apply lang_mdExtension in Hl. destruct Hl as [-> | ->]; auto.
Qed.

Lemma startsWith_cons (a c : ascii) (p s : string) :
  startsWith (String c s) (String a p) = Ascii.eqb a c && startsWith s p.
Proof. unfold startsWith. cbn [after_prefix]. destruct (Ascii.eqb a c); reflexivity. Qed.

(** X6: no href is of two kinds: the tests for an external link, an
    anchor and an absolute link exclude one another, so the order in which
    [renderLinkByType] asks them does not matter. *)
Theorem link_kinds_exclusive (href : string) :
  startsWith href "http" && startsWith href "#" = false /\
  startsWith href "http" && startsWith href "/" = false /\
  startsWith href "#" && startsWith href "/" = false.
Proof.
  destruct href as [|c s]; [auto|].
  change "http" with (String "h" "ttp"). change "#" with (String "#" "").
  change "/" with (String "/" ""). rewrite !startsWith_cons.
  destruct (Ascii.eqb_spec "h" c) as [Hh|Hh], (Ascii.eqb_spec "#" c) as [Hs|Hs],
    (Ascii.eqb_spec "/" c) as [Hl|Hl];
    try (exfalso; congruence); rewrite ?andb_false_r; auto.
Qed.

(** A prefix without a dot is found in a string as it is found in what
    stands before a dot. *)
Lemma startsWith_before_dot (p s t : string) :
  (forall q1 q2, p <> q1 +:+ "." +:+ q2) ->
  startsWith (s +:+ "." +:+ t) p = startsWith s p.
Proof.
  unfold startsWith. revert s. induction p as [|a p IH]; intros s Hp; [reflexivity|].
  destruct s as [|b s].
  - rewrite append_nil_l. simpl.
    destruct (Ascii.eqb_spec a ".") as [->|]; [|reflexivity].
    exfalso. apply (Hp "" p). reflexivity.
  - rewrite append_cons. simpl. destruct (Ascii.eqb a b); [|reflexivity].
    apply IH. intros q1 q2 ->. apply (Hp (String a q1) q2). reflexivity.
Qed.

(** X7: removing the extension does not change the kind of a link: the
    three tests give the same answer on the href as written and on the
    href that is rendered. *)
Theorem stripExtension_keeps_kind (href : string) :
  startsWith (stripExtension href) "http" = startsWith href "http" /\
  startsWith (stripExtension href) "#" = startsWith href "#" /\
  startsWith (stripExtension href) "/" = startsWith href "/".
Proof.
  assert (Hdot : forall p, (p = "http" \/ p = "#" \/ p = "/") ->
            forall q1 q2, p <> q1 +:+ "." +:+ q2).
  { intros p Hp q1 q2 Heq.
    destruct Hp as [-> | [-> | ->]];
      repeat (destruct q1 as [|? q1]; [discriminate|];
              rewrite append_cons in Heq; injection Heq as _ Heq);
      destruct q1; discriminate. }
  destruct (stripExtension_prefix href) as [-> | [H | H]]; [auto| |];
    rewrite H at 2 4 6.
  - change ".md" with ("." +:+ "md").
    rewrite !startsWith_before_dot by (apply Hdot; auto). auto.
  - change ".mdx" with ("." +:+ "mdx").
    rewrite !startsWith_before_dot by (apply Hdot; auto). auto.
Qed.

(** **** MDLink *)

(** X8: the anchor that opens a new tab and shows the external-link icon
    is rendered for the hrefs that start with "http", and for no other;
    its href is the one given, without a final ".md" or ".mdx". *)
Theorem external_links_open_new_tab {C : Type} (children : C) (href asPath : string) :
  startsWith href "http" = true <->
  MDLink children href asPath =
    StyledMdLinkContainer
      [Anchor (Some (stripExtension href)) (Some "_blank") (Some "noreferrer")
         [Children children; ExternalLinkIcon]].
Proof.
  unfold MDLink, renderLinkByType. split.
  - intros ->. reflexivity.
  - destruct (startsWith href "http"); [reflexivity|].
    destruct (startsWith href "#"); [discriminate|].
    destruct (startsWith href "/"); discriminate.
Qed.

(** X9: the path of the current page matters for relative links only: an
    href that starts with "http", "#" or "/" is rendered the same on every
    page. *)
Theorem router_path_only_for_relative {C : Type} (children : C)
    (href asPath1 asPath2 : string) :
  startsWith href "http" || startsWith href "#" || startsWith href "/" = true ->
  MDLink children href asPath1 = MDLink children href asPath2.
Proof.
  unfold MDLink, renderLinkByType.
  destruct (startsWith href "http"); [reflexivity|].
  destruct (startsWith href "#"); [reflexivity|].
  destruct (startsWith href "/"); [reflexivity | discriminate].
Qed.

Lemma startsWith_slash_free (s : string) :
  slash_free s = true -> startsWith s "/" = false.
Proof.
  destruct s as [|c s]; [reflexivity|]. simpl. intros H.
  apply andb_true_iff in H as [Hc _]. apply negb_true_iff in Hc.
  change "/" with (String SLASH ""). rewrite startsWith_cons, Ascii.eqb_sym, Hc.
  reflexivity.
Qed.

(** X10: a link to the markdown file [name.md] or [name.mdx], for a plain
    [name] (no slash, not "." or "..", not starting with "http", "#" or
    "index"), written on a page whose path has no segment starting with
    "index", is a client-side [Link] to the path of the page followed by
    [/name]: the page is taken as a directory and the extension is gone. *)
Theorem markdown_link_below_page {C : Type} (children : C)
    (name ext asPath : string) :
  ext = ".md" \/ ext = ".mdx" ->
  slash_free name = true ->
  name <> "." -> name <> ".." ->
  startsWith name "http" = false -> startsWith name "#" = false ->
  ~ index_like name ->
  Forall (fun segment => ~ index_like segment) (pathSegments asPath) ->
  MDLink children (name +:+ ext) asPath =
    StyledMdLinkContainer
      [Link (slashed (pathSegments asPath ++ [name]))
         [Anchor None None None [Children children]]].
Proof.
  intros Hext Hfree Hdot Hdots Hhttp Hhash Hidx Hpath.
  assert (Hdotless : forall p, (p = "http" \/ p = "#" \/ p = "/") ->
            startsWith (name +:+ ext) p = startsWith name p).
  { intros p Hp.
    assert (Hsplit : exists e, ext = "." +:+ e)
      by (destruct Hext as [-> | ->]; eexists; reflexivity).
    destruct Hsplit as [e ->]. apply startsWith_before_dot.
    intros q1 q2 Heq.
    destruct Hp as [-> | [-> | ->]];
      repeat (destruct q1 as [|? q1]; [discriminate|];
              rewrite append_cons in Heq; injection Heq as _ Heq);
      destruct q1; discriminate. }
  unfold MDLink, renderLinkByType.
  rewrite !Hdotless by auto.
  rewrite Hhttp, Hhash, (startsWith_slash_free name Hfree).
  rewrite (stripExtension_ends name ext Hext).
  do 3 f_equal.
  assert (Hh : hrefSegments name = [name]).
  { unfold hrefSegments. rewrite (split_one name Hfree).
    rewrite filter_cons_True by exact Hdot. reflexivity. }
  assert (Hb : baseSegments name asPath = pathSegments asPath).
  { rewrite baseSegments_take, Hh.
    rewrite filter_cons_False by (intros ?; congruence). simpl.
    apply take_ge. lia. }
  unfold getAbsoluteHrefFromRelativePath, newSegments.
  rewrite join_rooted, Hb, Hh.
  rewrite <- (append_nil_r (slashed _)) at 1.
  rewrite replace_passes; [apply append_nil_r | | | left; reflexivity].
  - rewrite <- Hh, <- Hb. apply newSegments_slash_free.
  - apply Forall_app. split; [exact Hpath | repeat constructor; exact Hidx].
Qed.

(** **** The statements on concrete links *)

(** A current path without segment and an href of "." segments. *)
Lemma resolved_root_or_empty_witness :
  pathSegments "/" = [] /\ hrefSegments "./." = [] /\
  getAbsoluteHrefFromRelativePath "./." "/" = "".
Proof.
  split; [reflexivity|]. split; [reflexivity|].
  exact (proj1 (resolved_root_or_empty "./." "/") eq_refl eq_refl).
Defined.

(** A link to a page below the current one. *)
Lemma resolved_without_index_witness :
  getAbsoluteHrefFromRelativePath "./setup" "/guides/start" =
  slashed (baseSegments "./setup" "/guides/start" ++ hrefSegments "./setup").
Proof.
  apply (resolved_without_index "./setup" "/guides/start").
  vm_compute.
  repeat (constructor; [discriminate|]). constructor.
Defined.

(** A link to the index page of a directory. *)
Lemma resolved_cut_at_index_witness :
  getAbsoluteHrefFromRelativePath "./guide/index" "/docs" = "/docs/guide".
Proof.
  apply (resolved_cut_at_index "./guide/index" "/docs" ["docs"; "guide"] [] "").
  - reflexivity.
  - repeat (constructor; [vm_compute; discriminate|]). constructor.
Defined.

(** One extension is removed, at the end only. *)
Lemma stripExtension_spec_witness :
  stripExtension "notes.txt" = "notes.txt" /\ stripExtension "a.md.mdx" = "a.md".
Proof.
  split.
  - apply (proj2 (proj2 (stripExtension_spec "notes.txt"))).
    intros pre. split; intros H.
    + change "notes.txt" with ("notes." +:+ "txt") in H.
      apply append_inj_length in H as [_ H]; [discriminate | reflexivity].
    + change "notes.txt" with ("notes" +:+ ".txt") in H.
      apply append_inj_length in H as [_ H]; [discriminate | reflexivity].
  - exact (proj1 (proj2 (stripExtension_spec "a.md"))).
Defined.

(** An absolute link on two pages. *)
Lemma router_path_only_for_relative_witness :
  MDLink tt "/config.md" "/guides/start" = MDLink tt "/config.md" "/".
Proof. apply router_path_only_for_relative. reflexivity. Defined.

(** A link to a sibling markdown file. *)
Lemma markdown_link_below_page_witness :
  MDLink tt "setup.md" "/guides/start" =
  StyledMdLinkContainer [Link "/guides/start/setup" [Anchor None None None [Children tt]]].
Proof.
  apply (markdown_link_below_page tt "setup" ".md" "/guides/start").
  - left. reflexivity.
  - reflexivity.
  - discriminate.
  - discriminate.
  - reflexivity.
  - reflexivity.
  - unfold index_like. vm_compute. discriminate.
  - vm_compute. repeat (constructor; [discriminate|]). constructor.
Defined.

End DocsFacts.
